(** * frame-script-cli: release selection and archive acquisition

    A shallow embedding of [src/cli.ts] (the FrameScript project
    initializer) and the properties of its release-selection loop, its two
    redirect-following HTTP helpers and the download/extract sequence of
    [main]. *)

From Stdlib Require Import ZArith List String Ascii Bool Lia Permutation.
From Stdlib Require Import Numbers.DecimalString Numbers.DecimalPos Numbers.DecimalZ.
From Equations Require Import Equations.
Import ListNotations.

Open Scope string_scope.
Open Scope list_scope.
Open Scope Z_scope.

(** ** JavaScript values used by the program *)

Module JS.

(** The numbers the program computes with are results of [Date.parse]
    (an integral time value in milliseconds, or NaN) and the literal [0];
    all of them are integers that a double represents exactly. *)
Inductive number : Type :=
| NaN
| Num (z : Z).

(** ToBoolean on a number: NaN and 0 are falsy. *)
Definition truthy_number (n : number) : bool :=
  match n with
  | NaN => false
  | Num z => negb (Z.eqb z 0)
  end.

(** [a || b] on numbers. *)
Definition or_number (a b : number) : number :=
  if truthy_number a then a else b.

(** [a || 0]: the result is never NaN, so it is given as an integer. *)
Definition or_zero (a : number) : Z :=
  match a with
  | NaN => 0
  | Num z => z
  end.

(** ToBoolean on an optional string: [undefined], [null] and the empty
    string are falsy. *)
Definition truthy_string (s : option string) : bool :=
  match s with
  | Some (String _ _) => true
  | _ => false
  end.

(** ToBoolean on an optional boolean. *)
Definition truthy_bool (b : option bool) : bool :=
  match b with
  | Some true => true
  | _ => false
  end.

(** [a || b] on optional strings. *)
Definition or_string (a b : option string) : option string :=
  if truthy_string a then a else b.

(** [a ?? b] where [b] may itself be missing. *)
Definition nullish {A : Type} (a b : option A) : option A :=
  match a with
  | Some _ => a
  | None => b
  end.

(** [a ?? d] with a default that is always there. *)
Definition nullish_default {A : Type} (a : option A) (d : A) : A :=
  match a with
  | Some x => x
  | None => d
  end.

(** [String.prototype.toLowerCase] on one code unit.  Strings are
    sequences of 8-bit code units here; the only letters of ["bin.zip"]
    are ASCII, and no character outside ASCII lower-cases to one of
    them, so comparing the lower-cased name with ["bin.zip"] is decided
    by the ASCII mapping A-Z to a-z. *)
Definition lower_ascii (c : ascii) : ascii :=
  let n := nat_of_ascii c in
  if ((65 <=? n) && (n <=? 90))%nat then ascii_of_nat (n + 32) else c.

Fixpoint toLowerCase (s : string) : string :=
  match s with
  | EmptyString => EmptyString
  | String c rest => String (lower_ascii c) (toLowerCase rest)
  end.

(** Number-to-string conversion of an integer, as a template literal
    [`${status}`] performs it. *)
Definition toString (z : Z) : string :=
  NilZero.string_of_int (Z.to_int z).

End JS.

(** ** [Date.parse] on the ECMAScript date-time string format

    [Date.parse] is a built-in of the runtime.  The results about the
    selection loop are stated for any parser; the version below is the
    parser restricted to the two shapes the release listing and the
    specification's examples use, [YYYY-MM-DD] and [YYYY-MM-DDTHH:mm:ssZ]
    (both UTC), and is NaN on every other string. *)

Module IsoDate.

Definition digit (c : ascii) : option Z :=
  let n := nat_of_ascii c in
  if ((48 <=? n) && (n <=? 57))%nat then Some (Z.of_nat (n - 48)) else None.

Definition digits2 (a b : ascii) : option Z :=
  match digit a, digit b with
  | Some x, Some y => Some (10 * x + y)
  | _, _ => None
  end.

Definition digits4 (a b c d : ascii) : option Z :=
  match digits2 a b, digits2 c d with
  | Some x, Some y => Some (100 * x + y)
  | _, _ => None
  end.

(** Days between 1970-01-01 and the given civil date. *)
Definition days_from_civil (y m d : Z) : Z :=
  let y' := if m <=? 2 then y - 1 else y in
  let era := y' / 400 in
  let yoe := y' - era * 400 in
  let mp := if 2 <? m then m - 3 else m + 9 in
  let doy := (153 * mp + 2) / 5 + d - 1 in
  let doe := yoe * 365 + yoe / 4 - yoe / 100 + doy in
  era * 146097 + doe - 719468.

(** The month is checked against 1-12 and the day against 1-31, as Node
    does; a day past the end of its month runs into the next month. *)
Definition date_ms (y m d : Z) : JS.number :=
  if (1 <=? m) && (m <=? 12) && (1 <=? d) && (d <=? 31)
  then JS.Num (days_from_civil y m d * 86400000)
  else JS.NaN.

(** Hours 00-23, minutes and seconds 00-59, and 24:00:00. *)
Definition time_ms (h mi s : Z) : JS.number :=
  if ((h <=? 23) && (mi <=? 59) && (s <=? 59))
     || (Z.eqb h 24 && Z.eqb mi 0 && Z.eqb s 0)
  then JS.Num (((h * 60 + mi) * 60 + s) * 1000)
  else JS.NaN.

Definition parse_date (y1 y2 y3 y4 m1 m2 d1 d2 : ascii) : JS.number :=
  match digits4 y1 y2 y3 y4, digits2 m1 m2, digits2 d1 d2 with
  | Some y, Some m, Some d => date_ms y m d
  | _, _, _ => JS.NaN
  end.

Definition parse_time (h1 h2 m1 m2 s1 s2 : ascii) : JS.number :=
  match digits2 h1 h2, digits2 m1 m2, digits2 s1 s2 with
  | Some h, Some mi, Some s => time_ms h mi s
  | _, _, _ => JS.NaN
  end.

Definition plus (a b : JS.number) : JS.number :=
  match a, b with
  | JS.Num x, JS.Num y => JS.Num (x + y)
  | _, _ => JS.NaN
  end.

Definition parse (s : string) : JS.number :=
  match s with
  | String y1 (String y2 (String y3 (String y4 (String "-"
    (String m1 (String m2 (String "-" (String d1 (String d2 rest))))))))) =>
      match rest with
      | EmptyString => parse_date y1 y2 y3 y4 m1 m2 d1 d2
      | String "T" (String h1 (String h2 (String ":" (String mi1 (String mi2
        (String ":" (String s1 (String s2 (String "Z" EmptyString))))))))) =>
          plus (parse_date y1 y2 y3 y4 m1 m2 d1 d2)
               (parse_time h1 h2 mi1 mi2 s1 s2)
      | _ => JS.NaN
      end
  | _ => JS.NaN
  end.

End IsoDate.

(** ** Release records (the [Release] type of the source)

    Every field is optional; [None] stands for both [undefined] and
    [null], which the operators used by the program ([??], [?.], [!],
    [||]) do not tell apart. *)

Module Asset.
Record t : Type := mk {
  name : option string;
  browser_download_url : option string
}.
End Asset.

Record Release : Type := mkRelease {
  name : option string;
  created_at : option string;
  published_at : option string;
  draft : option bool;
  assets : option (list Asset.t)
}.

(** The value [pickLatestReleaseWithBinZip] returns when it finds one. *)
Record Selection : Type := mkSelection {
  release : Release;
  assetUrl : string
}.

(** ** [pickLatestReleaseWithBinZip] *)

Section ReleaseSelection.

(** [Date.parse]. *)
Variable Date_parse : string -> JS.number.

(** The predicate given to [find]:
    [(entry.name ?? '').toLowerCase() === 'bin.zip']. *)
Definition is_bin_zip (entry : Asset.t) : bool :=
  String.eqb (JS.toLowerCase (JS.nullish_default (Asset.name entry) EmptyString))
             "bin.zip".

(** [release.assets?.find(...)]: the first matching entry. *)
Definition find_bin_zip (r : Release) : option Asset.t :=
  match assets r with
  | None => None
  | Some entries => find is_bin_zip entries
  end.

(** [asset?.browser_download_url]. *)
Definition bin_zip_url (r : Release) : option string :=
  match find_bin_zip r with
  | None => None
  | Some asset => Asset.browser_download_url asset
  end.

(** The constant [time] of the loop body:
    [Date.parse(release.published_at ?? '') ||
     Date.parse(release.created_at ?? '') || 0]. *)
Definition time_of (r : Release) : Z :=
  JS.or_zero
    (JS.or_number (Date_parse (JS.nullish_default (published_at r) EmptyString))
                  (Date_parse (JS.nullish_default (created_at r) EmptyString))).

(** [latest?.release.f]. *)
Definition latest_field (latest : option Selection)
           (f : Release -> option string) : option string :=
  match latest with
  | None => None
  | Some l => f (release l)
  end.

(** The constant [latestTime] of the loop body:
    [latest?.release.published_at || latest?.release.created_at
       ? Date.parse(latest?.release.published_at ??
                    latest?.release.created_at ?? '') || 0
       : 0]. *)
Definition latestTime_of (latest : option Selection) : Z :=
  if JS.truthy_string
       (JS.or_string (latest_field latest published_at)
                     (latest_field latest created_at))
  then JS.or_zero
         (Date_parse
            (JS.nullish_default
               (JS.nullish (latest_field latest published_at)
                           (latest_field latest created_at))
               EmptyString))
  else 0.

(** One iteration of the [for ... of] loop, as a function of the
    variable [latest]. *)
Definition pick_step (latest : option Selection) (r : Release)
  : option Selection :=
  if JS.truthy_bool (draft r) then latest
  else
    match bin_zip_url r with
    | None => latest
    | Some EmptyString => latest
    | Some url =>
        let time := time_of r in
        let latestTime := latestTime_of latest in
        if match latest with None => true | Some _ => false end
           || (time >? latestTime)
        then Some {| release := r; assetUrl := url |}
        else latest
    end.

Definition pickLatestReleaseWithBinZip (releases : list Release)
  : option Selection :=
  fold_left pick_step releases None.

(** *** Vocabulary for the statements *)

(** A release the loop considers as a candidate: it is not a draft and
    its first matching asset has a non-empty download URL. *)
Definition candidate (r : Release) : bool :=
  negb (JS.truthy_bool (draft r)) && JS.truthy_string (bin_zip_url r).

(** The release carries an asset whose name matches. *)
Definition has_bin_zip (r : Release) : bool :=
  match assets r with
  | None => false
  | Some entries => existsb is_bin_zip entries
  end.

(** The timestamp the loop uses for a release once it is the retained
    one. *)
Definition incumbent_time (r : Release) : Z :=
  latestTime_of (Some {| release := r; assetUrl := EmptyString |}).

(** The effective timestamp as the specification words it: publishedAt
    if present, else createdAt if present, else zero, a malformed date
    counting as zero. *)
Definition effective_timestamp_spec (r : Release) : Z :=
  match published_at r with
  | Some p => JS.or_zero (Date_parse p)
  | None =>
      match created_at r with
      | Some c => JS.or_zero (Date_parse c)
      | None => 0
      end
  end.

(** What every result of the loop satisfies: the release is one of the
    input, it is a candidate, and the URL is the one of its first
    matching asset. *)
Definition well_selected (releases : list Release) (sel : Selection) : Prop :=
  In (release sel) releases /\
  candidate (release sel) = true /\
  bin_zip_url (release sel) = Some (assetUrl sel).

(** The release at index [i] is the first candidate of greatest time:
    no candidate has a greater time, and every candidate before it has a
    strictly smaller one. *)
Definition first_latest (releases : list Release) (i : nat) (r : Release)
  : Prop :=
  nth_error releases i = Some r /\
  candidate r = true /\
  (forall j r', nth_error releases j = Some r' -> candidate r' = true ->
                time_of r' <= time_of r) /\
  (forall j r', (j < i)%nat -> nth_error releases j = Some r' ->
                candidate r' = true -> time_of r' < time_of r).

(** The loop computes the time of a release twice, once when it is the
    current entry ([time]) and once when it is the retained one
    ([latestTime]); the release is consistently dated when both agree. *)
Definition consistently_dated (r : Release) : Prop :=
  time_of r = incumbent_time r.

(** The state of the loop after a prefix of the input. *)
Definition loop_state (releases : list Release) (latest : option Selection)
  : Prop :=
  match latest with
  | None => forall r, In r releases -> candidate r = false
  | Some l =>
      bin_zip_url (release l) = Some (assetUrl l) /\
      exists i, first_latest releases i (release l)
  end.

End ReleaseSelection.

(** ** Release listings used in examples *)

Module Sample.

Definition asset (n : string) (url : option string) : Asset.t :=
  {| Asset.name := Some n; Asset.browser_download_url := url |}.

Definition published (n date : string) (d : option bool)
           (entries : list Asset.t) : Release :=
  {| name := Some n; created_at := None; published_at := Some date;
     draft := d; assets := Some entries |}.

(** The listing of the specification's example. *)
Definition v1 : Release :=
  published "v1" "2024-01-01" None [asset "bin.zip" (Some "A")].
Definition v2 : Release :=
  published "v2" "2024-06-01" None [asset "bin.zip" (Some "B")].
Definition v3 : Release :=
  published "v3" "2024-12-01" (Some true) [asset "bin.zip" (Some "C")].
Definition listing : list Release := [v1; v2; v3].

(** A published release whose matching asset has no download URL. *)
Definition no_url : Release :=
  published "v4" "2024-09-01" (Some false) [asset "bin.zip" None].

(** A release whose first matching asset has no download URL while a
    later matching asset has one. *)
Definition second_has_url : Release :=
  published "v5" "2024-10-01" None
            [asset "readme.txt" (Some "R"); asset "BIN.zip" None;
             asset "bin.zip" (Some "D")].

(** A release whose publishedAt does not parse and whose createdAt
    does. *)
Definition misdated : Release :=
  {| name := Some "v6"; created_at := Some "2024-06-01T00:00:00Z";
     published_at := Some "not-a-date"; draft := Some false;
     assets := Some [asset "bin.zip" (Some "M")] |}.

End Sample.

(** ** Errors, observable actions and outcomes of asynchronous operations *)

(** [new Error(message)]. *)
Inductive Error : Type :=
| MkError (message : string).

Definition message (e : Error) : string :=
  match e with MkError m => m end.

(** What a call of a built-in that may throw produces. *)
Inductive completion (A : Type) : Type :=
| Normal (a : A)
| Thrown (e : Error).
Arguments Normal {A} a.
Arguments Thrown {A} e.

(** The effects of the program on the network, the file system, child
    processes and the standard streams, in the order they are issued.
    A request is recorded by its address; the headers sent with it
    (which differ between [requestJson] and [downloadToFile]) are
    not. *)
Inductive action : Type :=
| HttpGet (url : string)
| CreateWriteStream (path : string)
| Mkdtemp (prefix : string)
| Mkdir (dir : string)
| TarExtract (file cwd : string)
| UnzipExtract (file dir : string)
| MakeExecutablesUnder (dir : string)
| Rm (dir : string)
| NpmInstall (cwd : string)
| Stdout (text : string)
| Stderr (text : string).

(** How an asynchronous operation ends: its promise is fulfilled, its
    promise is rejected, an exception escapes from an event callback (the
    promise is never settled and the process dies), or the process exits. *)
Inductive outcome (A : Type) : Type :=
| Resolved (a : A)
| Rejected (e : Error)
| Uncaught (e : Error)
| Exited (code : Z).
Arguments Resolved {A} a.
Arguments Rejected {A} e.
Arguments Uncaught {A} e.
Arguments Exited {A} code.

(** An operation is the trace of actions it performs and its outcome. *)
Definition Eff (A : Type) : Type := (list action * outcome A)%type.

Definition ret {A : Type} (a : A) : Eff A := ([], Resolved a).

Definition throw {A : Type} (e : Error) : Eff A := ([], Rejected e).

Definition perform (a : action) : Eff unit := ([a], Resolved tt).

(** [const x = await m; k x]. *)
Definition bind {A B : Type} (m : Eff A) (k : A -> Eff B) : Eff B :=
  match snd m with
  | Resolved a => (fst m ++ fst (k a), snd (k a))
  | Rejected e => (fst m, Rejected e)
  | Uncaught e => (fst m, Uncaught e)
  | Exited c => (fst m, Exited c)
  end.

(** An action issued before the rest of an operation. *)
Definition after (a : action) {A : Type} (m : Eff A) : Eff A :=
  (a :: fst m, snd m).

(** [try { body } finally { cleanup }]: the cleanup runs when the body
    completes or throws, not when the process is gone; an error thrown by
    the cleanup replaces the body's result. *)
Definition try_finally {A : Type} (body : Eff A) (cleanup : Eff unit) : Eff A :=
  match snd body with
  | Resolved a =>
      (fst body ++ fst cleanup,
       match snd cleanup with
       | Resolved _ => Resolved a
       | Rejected e => Rejected e
       | Uncaught e => Uncaught e
       | Exited c => Exited c
       end)
  | Rejected e =>
      (fst body ++ fst cleanup,
       match snd cleanup with
       | Resolved _ => Rejected e
       | Rejected e' => Rejected e'
       | Uncaught e' => Uncaught e'
       | Exited c => Exited c
       end)
  | Uncaught e => (fst body, Uncaught e)
  | Exited c => (fst body, Exited c)
  end.

Declare Scope eff_scope.
Delimit Scope eff_scope with eff.
Notation "x <- m ;; k" := (bind m (fun x => k))
  (at level 61, m at next level, right associativity) : eff_scope.
Notation "m ;;; k" := (bind m (fun _ => k))
  (at level 61, right associativity) : eff_scope.

(** An operation of the environment that returns nothing: it performs its
    action and then succeeds or fails as the environment decides. *)
Definition step (a : action) (failure : option Error) : Eff unit :=
  ([a], match failure with None => Resolved tt | Some e => Rejected e end).

(** ** The HTTP helpers *)

(** The part of [http.IncomingMessage] the program reads: the status
    code, the [location] header and the body, as the chunks the [data]
    events deliver before [end]. *)
Record IncomingMessage : Type := mkResponse {
  statusCode : option Z;
  headers_location : option string;
  chunks : list string
}.

(** What [https.get] leads to: the response callback is called, or the
    request emits [error]. *)
Inductive reply : Type :=
| Response (res : IncomingMessage)
| RequestError (err : Error).

Definition maxRedirects : nat := 5.

(** [const status = res.statusCode ?? 0]. *)
Definition status_of (res : IncomingMessage) : Z :=
  JS.nullish_default (statusCode res) 0.

(** The condition of the first [if] of both response callbacks:
    [status >= 300 && status < 400 && res.headers.location &&
     redirects < maxRedirects]. *)
Definition follows_redirect (res : IncomingMessage) (redirects : nat) : bool :=
  (300 <=? status_of res) && (status_of res <? 400)
  && JS.truthy_string (headers_location res)
  && (redirects <? maxRedirects)%nat.

(** The condition of the second [if]: [status < 200 || status >= 300]. *)
Definition is_failure_status (status : Z) : bool :=
  (status <? 200) || (300 <=? status).

Definition inspect {A : Type} (a : A) : {b : A | a = b} :=
  exist _ a eq_refl.

(** A followed redirect leaves strictly fewer redirects to follow: the
    measure on which both helpers recurse. *)
Lemma redirect_budget_decreases (res : IncomingMessage) (redirects : nat) :
  follows_redirect res redirects = true ->
  (maxRedirects - (redirects + 1) < maxRedirects - redirects)%nat.
Proof.
  unfold follows_redirect. intros H.
  apply andb_prop in H. destruct H as [_ Hlt].
  apply Nat.ltb_lt in Hlt. lia.
Qed.

Section Http.

(** [new URL(location, base).toString()]; the constructor throws on an
    address it cannot resolve. *)
Variable URL_resolve : string -> string -> completion string.

(** [https.get] as seen by one operation: the reply to the request
    issued after the given number of redirects, for the given address. *)
Variable https_get : nat -> string -> reply.

Section RequestJson.

Context {T : Type}.

(** [JSON.parse(text) as T]. *)
Variable JSON_parse : string -> completion T.

Equations? requestJson (url : string) (redirects : nat) : Eff T
  by wf (maxRedirects - redirects)%nat lt :=
requestJson url redirects with https_get redirects url := {
  | RequestError err => ([HttpGet url], Rejected err)
  | Response res with inspect (follows_redirect res redirects) := {
    | exist _ true _
        with URL_resolve
               (JS.nullish_default (headers_location res) EmptyString)
               url := {
        | Thrown e => ([HttpGet url], Uncaught e)
        | Normal nextUrl =>
            after (HttpGet url) (requestJson nextUrl (redirects + 1)) }
    | exist _ false _ =>
        ([HttpGet url],
         if is_failure_status (status_of res)
         then Rejected
                (MkError (String.append "Request failed with status "
                                         (JS.toString (status_of res))))
         else
           match JSON_parse (String.concat EmptyString (chunks res)) with
           | Normal value => Resolved value
           | Thrown err => Rejected err
           end) } }.
Proof.
  exact (redirect_budget_decreases res redirects e).
Qed.

End RequestJson.

(** [pipeline(res, fileStream)]: streaming the body into the file either
    finishes or fails. *)
Variable pipeline_to_file : IncomingMessage -> string -> option Error.

Equations? downloadToFile (url filePath : string) (redirects : nat)
  : Eff unit by wf (maxRedirects - redirects)%nat lt :=
downloadToFile url filePath redirects with https_get redirects url := {
  | RequestError err => ([HttpGet url], Rejected err)
  | Response res with inspect (follows_redirect res redirects) := {
    | exist _ true _
        with URL_resolve
               (JS.nullish_default (headers_location res) EmptyString)
               url := {
        | Thrown e => ([HttpGet url], Uncaught e)
        | Normal nextUrl =>
            after (HttpGet url)
                  (downloadToFile nextUrl filePath (redirects + 1)) }
    | exist _ false _ =>
        if is_failure_status (status_of res)
        then ([HttpGet url],
              Rejected
                (MkError (String.append "Download failed with status "
                                         (JS.toString (status_of res)))))
        else ([HttpGet url; CreateWriteStream filePath],
              match pipeline_to_file res filePath with
              | None => Resolved tt
              | Some err => Rejected err
              end) } }.
Proof.
  exact (redirect_budget_decreases res redirects e).
Qed.

(** The state machine of redirect-following.  A state is the address
    being requested and the number of redirects followed so far; the
    only transition is the followed redirect. *)
Inductive redirected : string * nat -> string * nat -> Prop :=
| redirected_intro (url nextUrl : string) (redirects : nat)
                   (res : IncomingMessage) :
    https_get redirects url = Response res ->
    follows_redirect res redirects = true ->
    URL_resolve (JS.nullish_default (headers_location res) EmptyString) url
    = Normal nextUrl ->
    redirected (url, redirects) (nextUrl, (redirects + 1)%nat).

(** The requests an operation goes through, from its first one. *)
Inductive reaches : string * nat -> string * nat -> Prop :=
| reaches_here (s : string * nat) : reaches s s
| reaches_next (s s' s'' : string * nat) :
    redirected s s' -> reaches s' s'' -> reaches s s''.

End Http.

(** The number of requests in a trace. *)
Definition count_gets (trace : list action) : nat :=
  List.length (filter (fun a => match a with HttpGet _ => true | _ => false end)
                      trace).

(** ** The release resolver and [main] *)

Definition REPO : string := "frame-script/FrameScript".

Definition LATEST_RELEASE_URL : string :=
  String.append "https://api.github.com/repos/"
                (String.append REPO "/releases/latest").

Definition RELEASES_URL : string :=
  String.append "https://api.github.com/repos/"
                (String.append REPO "/releases?per_page=100").

(** The [LatestRelease] type of the source. *)
Record LatestRelease : Type := mkLatestRelease {
  tag_name : option string
}.

(** The line-feed character that ends the messages of the program. *)
Definition LF : string := String "010"%char EmptyString.

(** Everything [main] obtains from its environment.  The answer to the
    prompt (already trimmed), the recursive chmod and the npm subprocess
    are collaborators whose result the environment decides; the runs
    described are those in which the prompt, when it is shown, is
    answered or fails.  [https_get] is indexed by the operation that
    issues the request (0: latest release, 1: release listing, 2: template
    download, 3: binary download) and by its redirect count. *)
Record World : Type := mkWorld {
  args : list string;
  prompt_answer : completion string;
  path_resolve_cwd : string -> string;
  path_join : string -> string -> string;
  os_tmpdir : string;
  existsSync : string -> bool;
  Date_parse : string -> JS.number;
  URL_resolve : string -> string -> completion string;
  https_get : nat -> nat -> string -> reply;
  JSON_parse_LatestRelease : string -> completion LatestRelease;
  JSON_parse_Releases : string -> completion (list Release);
  pipeline_to_file : IncomingMessage -> string -> option Error;
  mkdtemp : string -> completion string;
  mkdir : string -> option Error;
  tar_x : string -> string -> option Error;
  unzip_to : string -> string -> option Error;
  makeExecutablesUnder : string -> option Error;
  rm : string -> option Error;
  runNpmInstall : string -> option Error
}.

Section Program.

Variable w : World.

Local Open Scope eff_scope.

Definition promptProjectName : Eff string :=
  ([Stdout "Project name: "],
   match prompt_answer w with
   | Normal answer => Resolved answer
   | Thrown e => Rejected e
   end).

Definition fetchLatestTag : Eff string :=
  data <- requestJson (URL_resolve w) (https_get w 0%nat)
                      (JSON_parse_LatestRelease w) LATEST_RELEASE_URL 0 ;;
  let tag := tag_name data in
  match tag with
  | None => throw (MkError "Latest release tag not found.")
  | Some EmptyString => throw (MkError "Latest release tag not found.")
  | Some t => ret t
  end.

Definition fetchLatestBinaryZipUrl : Eff string :=
  releases <- requestJson (URL_resolve w) (https_get w 1%nat)
                          (JSON_parse_Releases w) RELEASES_URL 0 ;;
  let latest := pickLatestReleaseWithBinZip (Date_parse w) releases in
  match latest with
  | None => throw (MkError "Release with bin.zip not found.")
  | Some l => ret (assetUrl l)
  end.

(** [`https://codeload.github.com/${REPO}/tar.gz/${tag}`]. *)
Definition tarball_url (tag : string) : string :=
  String.append "https://codeload.github.com/"
                (String.append REPO (String.append "/tar.gz/" tag)).

(** [path.join(os.tmpdir(), 'frame-script-')]. *)
Definition temp_prefix : string :=
  path_join w (os_tmpdir w) "frame-script-".

(** [await mkdtemp(prefix)]. *)
Definition make_temp_dir (prefix : string) : Eff string :=
  ([Mkdtemp prefix],
   match mkdtemp w prefix with
   | Normal dir => Resolved dir
   | Thrown e => Rejected e
   end).

(** The body of the [try] block of [main]. *)
Definition acquire_and_extract
           (tarballUrl binaryZipUrl tarPath zipPath targetDir : string)
  : Eff unit :=
  downloadToFile (URL_resolve w) (https_get w 2%nat) (pipeline_to_file w)
                 tarballUrl tarPath 0 ;;;
  downloadToFile (URL_resolve w) (https_get w 3%nat) (pipeline_to_file w)
                 binaryZipUrl zipPath 0 ;;;
  step (Mkdir targetDir) (mkdir w targetDir) ;;;
  step (TarExtract tarPath targetDir) (tar_x w tarPath targetDir) ;;;
  let binDir := path_join w targetDir "bin" in
  step (Mkdir binDir) (mkdir w binDir) ;;;
  step (UnzipExtract zipPath binDir) (unzip_to w zipPath binDir) ;;;
  step (MakeExecutablesUnder binDir) (makeExecutablesUnder w binDir).

(** [main] from the point where the target directory is known not to
    exist. *)
Definition scaffold (rawName targetDir : string) : Eff unit :=
  perform (Stdout (String.append "Fetching latest template..." LF)) ;;;
  tag <- fetchLatestTag ;;
  let tarballUrl := tarball_url tag in
  perform (Stdout (String.append "Fetching latest binary release..." LF)) ;;;
  binaryZipUrl <- fetchLatestBinaryZipUrl ;;
  tmpDir <- make_temp_dir temp_prefix ;;
  let tarPath := path_join w tmpDir "template.tgz" in
  let zipPath := path_join w tmpDir "bin.zip" in
  try_finally
    (acquire_and_extract tarballUrl binaryZipUrl tarPath zipPath targetDir)
    (step (Rm tmpDir) (rm w tmpDir)) ;;;
  perform (Stdout (String.append "Installing dependencies..." LF)) ;;;
  step (NpmInstall targetDir) (runNpmInstall w targetDir) ;;;
  perform (Stdout (String.append "Created "
                                 (String.append rawName
                                                (String.append "/" LF)))).

Definition main : Eff unit :=
  rawName <- match nth_error (args w) 0 with
             | Some a => ret a
             | None => promptProjectName
             end ;;
  match rawName with
  | EmptyString =>
      ([Stderr (String.append "Project name is required." LF)], Exited 1)
  | _ =>
      let targetDir := path_resolve_cwd w rawName in
      if existsSync w targetDir
      then ([Stderr (String.append "Directory already exists: "
                                   (String.append rawName LF))],
            Exited 1)
      else scaffold rawName targetDir
  end.

(** What has happened when [main] reaches its [try] block. *)
Definition prepared (tag binaryZipUrl tmpDir : string) : Prop :=
  snd fetchLatestTag = Resolved tag /\
  snd fetchLatestBinaryZipUrl = Resolved binaryZipUrl /\
  mkdtemp w temp_prefix = Normal tmpDir.

(** Both downloads resolved, into the temporary directory. *)
Definition downloaded (tag binaryZipUrl tmpDir : string) : Prop :=
  snd (downloadToFile (URL_resolve w) (https_get w 2%nat)
                      (pipeline_to_file w) (tarball_url tag)
                      (path_join w tmpDir "template.tgz") 0)
  = Resolved tt /\
  snd (downloadToFile (URL_resolve w) (https_get w 3%nat)
                      (pipeline_to_file w) binaryZipUrl
                      (path_join w tmpDir "bin.zip") 0)
  = Resolved tt.

End Program.

(** An action that creates or writes something in the project being
    scaffolded: creating a directory, extracting an archive, changing
    permissions or running the installer. *)
Definition populates (a : action) : bool :=
  match a with
  | Mkdir _ | TarExtract _ _ | UnzipExtract _ _
  | MakeExecutablesUnder _ | NpmInstall _ => true
  | _ => false
  end.

(** An action that removes something. *)
Definition removes (a : action) : option string :=
  match a with
  | Rm dir => Some dir
  | _ => None
  end.


(** ** Servers and environments used in examples *)

Module SampleNet.

(** Resolution of a location that is an absolute address in normal
    form: the result is the location itself. *)
Definition absolute (location base : string) : completion string :=
  Normal location.

Definition redirect_to (location : string) : IncomingMessage :=
  {| statusCode := Some 302; headers_location := Some location;
     chunks := [] |}.

Definition answer (status : Z) (body : list string) : IncomingMessage :=
  {| statusCode := Some status; headers_location := None; chunks := body |}.

(** A server that redirects for ever. *)
Definition loop_server : nat -> string -> reply :=
  fun _ _ => Response (redirect_to "https://example.com/loop").

(** A server that redirects once and then answers. *)
Definition one_redirect (final : IncomingMessage) : nat -> string -> reply :=
  fun redirects _ =>
    match redirects with
    | O => Response (redirect_to "https://example.com/final")
    | S _ => Response final
    end.

(** The double-quote character. *)
Definition dq : string := String "034"%char EmptyString.

Definition quoted (s : string) : string :=
  String.append dq (String.append s dq).

Fixpoint strip_prefix (p s : string) : option string :=
  match p, s with
  | EmptyString, _ => Some s
  | String a p', String b s' =>
      if Ascii.eqb a b then strip_prefix p' s' else None
  | String _ _, EmptyString => None
  end.

Fixpoint until_quote (s : string) : option (string * string) :=
  match s with
  | EmptyString => None
  | String c rest =>
      if Ascii.eqb c "034"%char then Some (EmptyString, rest)
      else match until_quote rest with
           | Some (content, after_quote) => Some (String c content, after_quote)
           | None => None
           end
  end.

(** [JSON.parse] on the two texts a latest-release response is given as
    here: the empty object, and an object whose only member is a
    tag_name string without escapes.  Any other text is a syntax
    error. *)
Definition parse_latest (text : string) : completion LatestRelease :=
  if String.eqb text "{}" then Normal {| tag_name := None |}
  else
    match strip_prefix
            (String.append "{"
               (String.append (quoted "tag_name") (String.append ":" dq)))
            text
    with
    | Some rest =>
        match until_quote rest with
        | Some (tag, closing) =>
            if String.eqb closing "}"
            then Normal {| tag_name := Some tag |}
            else Thrown (MkError "Unexpected token in JSON")
        | None => Thrown (MkError "Unexpected end of JSON input")
        end
    | None => Thrown (MkError "Unexpected token in JSON")
    end.

(** The text of a latest-release response with the given tag. *)
Definition latest_body (tag : string) : string :=
  String.append "{"
    (String.append (quoted "tag_name")
       (String.append ":" (String.append (quoted tag) "}"))).

(** A name that stands for the text of the release listing
    [Sample.listing]. *)
Definition listing_body : string := "[v1,v2,v3]".

Definition parse_listing (text : string) : completion (list Release) :=
  if String.eqb text listing_body then Normal Sample.listing
  else Thrown (MkError "Unexpected token in JSON").

(** An environment in which every file-system operation and the
    installer succeed; the network is given. *)
Definition world (get : nat -> nat -> string -> reply) : World :=
  {| args := ["my-project"];
     prompt_answer := Normal "my-project";
     path_resolve_cwd := fun n => String.append "/home/user/" n;
     path_join := fun a b => String.append a (String.append "/" b);
     os_tmpdir := "/tmp";
     existsSync := fun _ => false;
     Date_parse := IsoDate.parse;
     URL_resolve := absolute;
     https_get := get;
     JSON_parse_LatestRelease := parse_latest;
     JSON_parse_Releases := parse_listing;
     pipeline_to_file := fun _ _ => None;
     mkdtemp := fun prefix => Normal (String.append prefix "aB3dEf");
     mkdir := fun _ => None;
     tar_x := fun _ _ => None;
     unzip_to := fun _ _ => None;
     makeExecutablesUnder := fun _ => None;
     rm := fun _ => None;
     runNpmInstall := fun _ => None |}.

(** A network on which the latest release is tagged [tag], the listing
    is [Sample.listing], and the two downloads get the given replies. *)
Definition network (tag : string) (template binary : reply)
  : nat -> nat -> string -> reply :=
  fun operation _ _ =>
    match operation with
    | 0%nat => Response (answer 200 [latest_body tag])
    | 1%nat => Response (answer 200 [listing_body])
    | 2%nat => template
    | _ => binary
    end.

Definition found : reply := Response (answer 200 ["archive bytes"]).

Definition unavailable : reply := Response (answer 503 []).

(** The latest release has an empty tag. *)
Definition untagged_world : World :=
  world (network EmptyString found found).

(** Everything succeeds. *)
Definition good_world : World :=
  world (network "v1.0.0" found found).

(** The binary download fails after the template was downloaded. *)
Definition failing_world : World :=
  world (network "v1.0.0" found unavailable).

End SampleNet.

(** ** The rest of the program: entry point, installer and permissions *)

(** A request after which no redirect is followed: the request fails,
    or its response is not a followed redirect, or the location of the
    redirect cannot be resolved. *)
Definition final (URL_resolve : string -> string -> completion string)
           (https_get : nat -> string -> reply) (s : string * nat) : Prop :=
  forall s', ~ redirected URL_resolve https_get s s'.

Definition is_get (a : action) : bool :=
  match a with HttpGet _ => true | _ => false end.

(** Two actions that follow each other in a trace. *)
Definition adjacent (a b : action) (trace : list action) : Prop :=
  exists before after_, trace = before ++ a :: b :: after_.

(** The statements of the [try] block of [main] that come after the two
    downloads. *)
Definition extract_archives (w : World) (tarPath zipPath targetDir : string)
  : Eff unit :=
  bind (step (Mkdir targetDir) (mkdir w targetDir)) (fun _ =>
  bind (step (TarExtract tarPath targetDir) (tar_x w tarPath targetDir))
       (fun _ =>
  let binDir := path_join w targetDir "bin" in
  bind (step (Mkdir binDir) (mkdir w binDir)) (fun _ =>
  bind (step (UnzipExtract zipPath binDir) (unzip_to w zipPath binDir))
       (fun _ =>
  step (MakeExecutablesUnder binDir) (makeExecutablesUnder w binDir))))).

(** What must come right before an extraction: the creation of the
    directory it extracts into. *)
Definition requires (b : action) : option action :=
  match b with
  | TarExtract _ cwd => Some (Mkdir cwd)
  | UnzipExtract _ dir => Some (Mkdir dir)
  | _ => None
  end.

(** A trace in which every extraction comes right after the creation of
    its directory. *)
Definition ordered (trace : list action) : Prop :=
  forall a b, requires b = Some a -> In b trace -> adjacent a b trace.

(** The messages of the program. *)
Definition is_message (a : action) : bool :=
  match a with
  | Stdout _ | Stderr _ => true
  | _ => false
  end.

(** The actions of [main] between the check of the target directory
    and the [try] block, when the temporary directory gets created. *)
Definition preamble (w : World) : list action :=
  [Stdout (String.append "Fetching latest template..." LF)]
  ++ fst (fetchLatestTag w)
  ++ [Stdout (String.append "Fetching latest binary release..." LF)]
  ++ fst (fetchLatestBinaryZipUrl w)
  ++ [Mkdtemp (temp_prefix w)].

(** The project name [main] works with: the first argument, or else the
    answer to the prompt. *)
Definition named (w : World) (rawName : string) : Prop :=
  nth_error (args w) 0 = Some rawName
  \/ (nth_error (args w) 0 = None /\ prompt_answer w = Normal rawName).

(** The template literal [usage]. *)
Definition unlines (lines : list string) : string :=
  String.concat EmptyString (map (fun l => String.append l LF) lines).

Definition usage : string :=
  unlines ["FrameScript project initializer";
           EmptyString;
           "Usage:";
           "  npm init @frame-script/latest";
           "  create-latest [project-name]";
           EmptyString;
           "Options:";
           "  -h, --help  Show this help"].

(** [args.includes('-h') || args.includes('--help')]. *)
Definition hasHelp (arguments : list string) : bool :=
  existsb (String.eqb "-h") arguments || existsb (String.eqb "--help") arguments.

(** The module as a whole: the help check that runs before anything
    else, then [main] with its [catch] handler, which reports the error
    and exits with status 1.  When [main] resolves the process ends by
    itself. *)
Definition program (w : World) : Eff unit :=
  if hasHelp (args w) then ([Stdout usage], Exited 0)
  else
    match snd (main w) with
    | Rejected err =>
        (fst (main w)
         ++ [Stderr (String.append "Failed to initialize project: "
                                   (String.append (message err) LF))],
         Exited 1)
    | _ => main w
    end.

(** *** [runNpmInstall] *)

Module Child.

(** What the spawned child leads to: the [error] event, or the [exit]
    event with the exit code, which is [null] when a signal ended the
    child. *)
Inductive ChildEvent : Type :=
| ChildError (err : Error)
| ChildExit (code : option Z).

(** [process.platform === 'win32' ? 'npm.cmd' : 'npm']. *)
Definition npmCmd (platform : string) : string :=
  if String.eqb platform "win32" then "npm.cmd" else "npm".

(** [`${code ?? '?'}`]. *)
Definition code_text (code : option Z) : string :=
  match code with
  | Some c => JS.toString c
  | None => "?"
  end.

Definition runNpmInstall
           (platform : string)
           (spawn : string -> list string -> string -> ChildEvent)
           (cwd : string) : outcome unit :=
  match spawn (npmCmd platform) ["install"] cwd with
  | ChildError err => Rejected err
  | ChildExit code =>
      match code with
      | Some 0 => Resolved tt
      | _ => Rejected
               (MkError (String.append "npm install failed with exit code "
                                       (code_text code)))
      end
  end.

End Child.

(** *** [makeExecutablesUnder] *)

Module Walk.

(** A directory as [readdir] with [withFileTypes] shows it: whether the
    listing fails, and its entries.  An entry is a regular file (with
    the failure of its [chmod], if any), a directory, or something that
    is neither according to [isDirectory()] and [isFile()] (a symbolic
    link, a socket, a device). *)
Inductive Listing : Type :=
| mkListing (readdir_failure : option Error) (entries : list Dirent)
with Dirent : Type :=
| RegularFile (name : string) (chmod_failure : option Error)
| Directory (name : string) (content : Listing)
| Special (name : string).

(** What a walk does: the [chmod] calls it issues, with their mode, and
    the errors of the operations that fail.  The entries of a directory
    are handled concurrently under [Promise.all]: the function mapped
    over them runs for each entry up to its first [await], which issues
    the [chmod] of every regular file of the directory and the [readdir]
    of every sub-directory, before the listing of any sub-directory
    arrives.  The calls are listed in that order: the files of a
    directory in listing order, then what the walks of its
    sub-directories do, the sub-directories taken in listing order (one
    of the orders in which their listings can arrive).  The promise is fulfilled when no operation
    fails, and is otherwise rejected with the error of the operation
    that fails first, one of [failures]. *)
Record Report : Type := mkReport {
  chmods : list (string * Z);
  failures : list Error
}.

Definition nothing : Report := {| chmods := []; failures := [] |}.

Definition both (a b : Report) : Report :=
  {| chmods := chmods a ++ chmods b; failures := failures a ++ failures b |}.

Definition fulfilled (r : Report) : bool :=
  match failures r with
  | [] => true
  | _ :: _ => false
  end.

Section Walk.

(** [process.platform === 'win32'] and [path.join]. *)
Variable win32 : bool.
Variable path_join : string -> string -> string.

(** [await chmod(fullPath, 0o755)] for the entries that are files. *)
Fixpoint chmod_files (dir : string) (entries : list Dirent) : Report :=
  match entries with
  | [] => nothing
  | RegularFile name failure :: rest =>
      both {| chmods := [(path_join dir name, 493)];
              failures := match failure with
                          | Some err => [err]
                          | None => []
                          end |}
           (chmod_files dir rest)
  | _ :: rest => chmod_files dir rest
  end.

Fixpoint makeExecutablesUnder (dir : string) (listing : Listing) {struct listing}
  : Report :=
  if win32 then nothing
  else
    match listing with
    | mkListing (Some err) _ => {| chmods := []; failures := [err] |}
    | mkListing None entries =>
        both
          (chmod_files dir entries)
          ((fix below (rest : list Dirent) : Report :=
              match rest with
              | [] => nothing
              | Directory name content :: rest' =>
                  both (makeExecutablesUnder (path_join dir name) content)
                       (below rest')
              | _ :: rest' => below rest'
              end) entries)
    end.

(** [await makeExecutablesUnder(fullPath)] for the entries that are
    directories. *)
Fixpoint walks_below (dir : string) (entries : list Dirent) : Report :=
  match entries with
  | [] => nothing
  | Directory name content :: rest =>
      both (makeExecutablesUnder (path_join dir name) content)
           (walks_below dir rest)
  | _ :: rest => walks_below dir rest
  end.

(** The paths of the regular files of a directory tree, one for each
    file entry, in depth-first listing order. *)
Fixpoint regular_files (dir : string) (listing : Listing) {struct listing}
  : list string :=
  match listing with
  | mkListing _ entries =>
      (fix each (rest : list Dirent) : list string :=
         match rest with
         | [] => []
         | entry :: rest' =>
             match entry with
             | RegularFile name _ => [path_join dir name]
             | Directory name content =>
                 regular_files (path_join dir name) content
             | Special _ => []
             end ++ each rest'
         end) entries
  end.

Fixpoint files_of_entries (dir : string) (entries : list Dirent)
  : list string :=
  match entries with
  | [] => []
  | entry :: rest =>
      match entry with
      | RegularFile name _ => [path_join dir name]
      | Directory name content => regular_files (path_join dir name) content
      | Special _ => []
      end ++ files_of_entries dir rest
  end.

(** The regular files of a directory tree, by their path. *)
Inductive file_in : string -> Listing -> string -> Prop :=
| file_here (dir name : string) (failure rf : option Error)
            (entries : list Dirent) :
    In (RegularFile name failure) entries ->
    file_in dir (mkListing rf entries) (path_join dir name)
| file_below (dir name path : string) (content : Listing)
             (rf : option Error) (entries : list Dirent) :
    In (Directory name content) entries ->
    file_in (path_join dir name) content path ->
    file_in dir (mkListing rf entries) path.

End Walk.

End Walk.

(** ** More environments used in examples *)

Module SampleMore.

(** A resolver that rejects a location without host. *)
Definition resolve_or_throw (location base : string) : completion string :=
  if String.eqb location "http://" then Thrown (MkError "Invalid URL")
  else Normal location.

(** The template download is redirected to a location that cannot be
    resolved. *)
Definition crashing_world : World :=
  {| args := ["my-project"];
     prompt_answer := Normal "my-project";
     path_resolve_cwd := fun n => String.append "/home/user/" n;
     path_join := fun a b => String.append a (String.append "/" b);
     os_tmpdir := "/tmp";
     existsSync := fun _ => false;
     Date_parse := IsoDate.parse;
     URL_resolve := resolve_or_throw;
     https_get := SampleNet.network "v1.0.0"
                    (Response (SampleNet.redirect_to "http://"))
                    SampleNet.found;
     JSON_parse_LatestRelease := SampleNet.parse_latest;
     JSON_parse_Releases := SampleNet.parse_listing;
     pipeline_to_file := fun _ _ => None;
     mkdtemp := fun prefix => Normal (String.append prefix "aB3dEf");
     mkdir := fun _ => None;
     tar_x := fun _ _ => None;
     unzip_to := fun _ _ => None;
     makeExecutablesUnder := fun _ => None;
     rm := fun _ => None;
     runNpmInstall := fun _ => None |}.

(** The same, the project name being given at the prompt. *)
Definition prompted_crashing_world : World :=
  {| args := [];
     prompt_answer := Normal "my-project";
     path_resolve_cwd := path_resolve_cwd crashing_world;
     path_join := path_join crashing_world;
     os_tmpdir := os_tmpdir crashing_world;
     existsSync := existsSync crashing_world;
     Date_parse := Date_parse crashing_world;
     URL_resolve := URL_resolve crashing_world;
     https_get := https_get crashing_world;
     JSON_parse_LatestRelease := JSON_parse_LatestRelease crashing_world;
     JSON_parse_Releases := JSON_parse_Releases crashing_world;
     pipeline_to_file := pipeline_to_file crashing_world;
     mkdtemp := mkdtemp crashing_world;
     mkdir := mkdir crashing_world;
     tar_x := tar_x crashing_world;
     unzip_to := unzip_to crashing_world;
     makeExecutablesUnder := makeExecutablesUnder crashing_world;
     rm := rm crashing_world;
     runNpmInstall := runNpmInstall crashing_world |}.

(** The user answers the prompt with nothing. *)
Definition unnamed_world : World :=
  {| args := [];
     prompt_answer := Normal EmptyString;
     path_resolve_cwd := fun n => String.append "/home/user/" n;
     path_join := fun a b => String.append a (String.append "/" b);
     os_tmpdir := "/tmp";
     existsSync := fun _ => false;
     Date_parse := IsoDate.parse;
     URL_resolve := SampleNet.absolute;
     https_get := SampleNet.network "v1.0.0" SampleNet.found SampleNet.found;
     JSON_parse_LatestRelease := SampleNet.parse_latest;
     JSON_parse_Releases := SampleNet.parse_listing;
     pipeline_to_file := fun _ _ => None;
     mkdtemp := fun prefix => Normal (String.append prefix "aB3dEf");
     mkdir := fun _ => None;
     tar_x := fun _ _ => None;
     unzip_to := fun _ _ => None;
     makeExecutablesUnder := fun _ => None;
     rm := fun _ => None;
     runNpmInstall := fun _ => None |}.

(** A [bin] directory with two programs, a nested directory and a
    symbolic link. *)
Definition bin_tree : Walk.Listing :=
  Walk.mkListing None
    [Walk.Directory "lib"
       (Walk.mkListing None [Walk.RegularFile "codec" None]);
     Walk.RegularFile "frame" None;
     Walk.Special "latest"].

Definition slash (a b : string) : string :=
  String.append a (String.append "/" b).

(** A child that exits with the given code. *)
Definition exits_with (code : option Z)
  : string -> list string -> string -> Child.ChildEvent :=
  fun _ _ _ => Child.ChildExit code.

End SampleMore.

(** * Properties of the release selection *)

Section ReleaseSelectionFacts.

Variable parse : string -> JS.number.

Lemma latestTime_of_Some (l : Selection) :
  latestTime_of parse (Some l) = incumbent_time parse (release l).
Proof. reflexivity. Qed.

Lemma truthy_string_inv (s : option string) :
  JS.truthy_string s = true ->
  exists c rest, s = Some (String c rest).
Proof.
  destruct s as [[|c rest]|]; simpl; intros H; try discriminate.
  now exists c, rest.
Qed.

(** A release that is not a candidate leaves [latest] as it is. *)
Lemma pick_step_skip (latest : option Selection) (r : Release) :
  candidate r = false -> pick_step parse latest r = latest.
Proof.
  unfold candidate, pick_step. intros H.
  destruct (JS.truthy_bool (draft r)); [reflexivity|].
  simpl in H. destruct (bin_zip_url r) as [[|c rest]|]; simpl in H;
    first [reflexivity | discriminate].
Qed.

(** A candidate replaces [latest] when there is none yet or when its
    time is strictly greater than the time computed for the retained
    release. *)
Lemma pick_step_candidate (latest : option Selection) (r : Release) :
  candidate r = true ->
  exists url,
    bin_zip_url r = Some url /\ url <> EmptyString /\
    pick_step parse latest r =
    match latest with
    | None => Some {| release := r; assetUrl := url |}
    | Some l =>
        if time_of parse r >? incumbent_time parse (release l)
        then Some {| release := r; assetUrl := url |}
        else latest
    end.
Proof.
  unfold candidate. intros H. apply andb_prop in H. destruct H as [Hd Hu].
  apply negb_true_iff in Hd.
  destruct (truthy_string_inv _ Hu) as (c & rest & Hurl).
  exists (String c rest). split; [assumption|]. split; [discriminate|].
  unfold pick_step. rewrite Hd, Hurl.
  destruct latest as [l|]; [|reflexivity].
  rewrite latestTime_of_Some. reflexivity.
Qed.

Lemma pick_snoc (releases : list Release) (r : Release) :
  pickLatestReleaseWithBinZip parse (releases ++ [r]) =
  pick_step parse (pickLatestReleaseWithBinZip parse releases) r.
Proof.
  unfold pickLatestReleaseWithBinZip. now rewrite fold_left_app.
Qed.

(** The first matching asset of a candidate is one of the release's
    assets, its name matches and it carries the candidate's URL. *)
Lemma bin_zip_url_asset (r : Release) (url : string) :
  bin_zip_url r = Some url ->
  exists entries asset,
    assets r = Some entries /\ In asset entries /\
    is_bin_zip asset = true /\
    Asset.browser_download_url asset = Some url.
Proof.
  unfold bin_zip_url, find_bin_zip.
  destruct (assets r) as [entries|]; [|discriminate].
  destruct (find is_bin_zip entries) as [asset|] eqn:Hfind; [|discriminate].
  intros Hurl. apply find_some in Hfind. destruct Hfind as [Hin Hm].
  now exists entries, asset.
Qed.

Lemma bin_zip_url_has_bin_zip (r : Release) (url : string) :
  bin_zip_url r = Some url -> has_bin_zip r = true.
Proof.
  intros H. destruct (bin_zip_url_asset _ _ H) as (es & a & He & Hin & Hm & _).
  unfold has_bin_zip. rewrite He. apply existsb_exists. now exists a.
Qed.

Lemma pick_step_well_selected (releases : list Release)
      (latest : option Selection) (r : Release) (sel : Selection) :
  (forall l, latest = Some l -> well_selected releases l) ->
  pick_step parse latest r = Some sel ->
  well_selected (releases ++ [r]) sel.
Proof.
  intros Hprev Hstep.
  assert (Hweak : forall l, latest = Some l -> well_selected (releases ++ [r]) l).
  { intros l Hl. destruct (Hprev l Hl) as (Hin & Hc & Hu).
    repeat split; try assumption. apply in_or_app. now left. }
  destruct (candidate r) eqn:Hcand.
  - destruct (pick_step_candidate latest r Hcand) as (url & Hurl & _ & Heq).
    rewrite Heq in Hstep.
    assert (Hnew : well_selected (releases ++ [r])
                                 {| release := r; assetUrl := url |}).
    { repeat split; simpl; try assumption.
      apply in_or_app. right. now left. }
    destruct latest as [l|].
    + destruct (time_of parse r >? incumbent_time parse (release l)).
      * injection Hstep as <-. exact Hnew.
      * now apply Hweak.
    + injection Hstep as <-. exact Hnew.
  - rewrite (pick_step_skip latest r Hcand) in Hstep. now apply Hweak.
Qed.

Lemma pick_well_selected (releases : list Release) (sel : Selection) :
  pickLatestReleaseWithBinZip parse releases = Some sel ->
  well_selected releases sel.
Proof.
  revert sel. induction releases as [|r releases IH] using rev_ind; intros sel.
  - discriminate.
  - rewrite pick_snoc. apply pick_step_well_selected.
    intros l Hl. now apply IH.
Qed.

End ReleaseSelectionFacts.

Section FirstLatest.

Variable parse : string -> JS.number.

Lemma nth_error_snoc {A : Type} (l : list A) (x y : A) (j : nat) :
  nth_error (l ++ [x]) j = Some y ->
  ((j < List.length l)%nat /\ nth_error l j = Some y) \/
  (j = List.length l /\ y = x).
Proof.
  intros H. destruct (Nat.lt_ge_cases j (List.length l)) as [Hlt|Hge].
  - left. split; [assumption|]. now rewrite nth_error_app1 in H.
  - right. rewrite nth_error_app2 in H by assumption.
    destruct (j - List.length l)%nat as [|k] eqn:Hk.
    + simpl in H. injection H as <-. split; [lia|reflexivity].
    + simpl in H. destruct k; discriminate.
Qed.

Lemma nth_error_snoc_last {A : Type} (l : list A) (x : A) :
  nth_error (l ++ [x]) (List.length l) = Some x.
Proof.
  rewrite nth_error_app2 by lia. now rewrite Nat.sub_diag.
Qed.

Lemma first_latest_skip (releases : list Release) (i : nat) (r x : Release) :
  candidate x = false ->
  first_latest parse releases i r ->
  first_latest parse (releases ++ [x]) i r.
Proof.
  intros Hx (Hi & Hc & Hmax & Hfirst).
  assert (Hlen : (i < List.length releases)%nat)
    by (apply nth_error_Some; congruence).
  repeat split.
  - now rewrite nth_error_app1.
  - assumption.
  - intros j r' Hj Hr'. destruct (nth_error_snoc _ _ _ _ Hj) as [[_ H]|[_ ->]].
    + now apply (Hmax j).
    + congruence.
  - intros j r' Hlt Hj Hr'.
    destruct (nth_error_snoc _ _ _ _ Hj) as [[_ H]|[_ ->]].
    + now apply (Hfirst j).
    + congruence.
Qed.

Lemma first_latest_keep (releases : list Release) (i : nat) (r x : Release) :
  time_of parse x <= time_of parse r ->
  first_latest parse releases i r ->
  first_latest parse (releases ++ [x]) i r.
Proof.
  intros Hle (Hi & Hc & Hmax & Hfirst).
  assert (Hlen : (i < List.length releases)%nat)
    by (apply nth_error_Some; congruence).
  repeat split.
  - now rewrite nth_error_app1.
  - assumption.
  - intros j r' Hj Hr'. destruct (nth_error_snoc _ _ _ _ Hj) as [[_ H]|[_ ->]].
    + now apply (Hmax j).
    + assumption.
  - intros j r' Hlt Hj Hr'.
    destruct (nth_error_snoc _ _ _ _ Hj) as [[_ H]|[Hj' _]].
    + now apply (Hfirst j).
    + lia.
Qed.

Lemma first_latest_replace (releases : list Release) (i : nat) (r x : Release) :
  candidate x = true ->
  time_of parse r < time_of parse x ->
  first_latest parse releases i r ->
  first_latest parse (releases ++ [x]) (List.length releases) x.
Proof.
  intros Hx Hlt (Hi & Hc & Hmax & Hfirst).
  repeat split.
  - apply nth_error_snoc_last.
  - assumption.
  - intros j r' Hj Hr'. destruct (nth_error_snoc _ _ _ _ Hj) as [[_ H]|[_ ->]].
    + specialize (Hmax j r' H Hr'). lia.
    + lia.
  - intros j r' Hjlt Hj Hr'.
    destruct (nth_error_snoc _ _ _ _ Hj) as [[_ H]|[Hj' _]].
    + specialize (Hmax j r' H Hr'). lia.
    + lia.
Qed.

Lemma first_latest_initial (releases : list Release) (x : Release) :
  candidate x = true ->
  (forall r, In r releases -> candidate r = false) ->
  first_latest parse (releases ++ [x]) (List.length releases) x.
Proof.
  intros Hx Hnone.
  repeat split.
  - apply nth_error_snoc_last.
  - assumption.
  - intros j r' Hj Hr'. destruct (nth_error_snoc _ _ _ _ Hj) as [[_ H]|[_ ->]].
    + apply nth_error_In in H. rewrite (Hnone _ H) in Hr'. discriminate.
    + lia.
  - intros j r' Hjlt Hj Hr'.
    destruct (nth_error_snoc _ _ _ _ Hj) as [[_ H]|[Hj' _]].
    + apply nth_error_In in H. rewrite (Hnone _ H) in Hr'. discriminate.
    + lia.
Qed.

(** The loop invariant: on consistently dated candidates the loop keeps
    the first candidate of greatest time. *)
Lemma pick_loop_state (releases : list Release) :
  (forall r, In r releases -> candidate r = true ->
             consistently_dated parse r) ->
  loop_state parse releases (pickLatestReleaseWithBinZip parse releases).
Proof.
  induction releases as [|x releases IH] using rev_ind; intros Hdated.
  - simpl. intros r [].
  - assert (Hprefix : forall r, In r releases -> candidate r = true ->
                                consistently_dated parse r).
    { intros r Hin. apply Hdated. apply in_or_app. now left. }
    specialize (IH Hprefix). rewrite pick_snoc.
    destruct (candidate x) eqn:Hx.
    + destruct (pick_step_candidate parse
                  (pickLatestReleaseWithBinZip parse releases) x Hx)
        as (url & Hurl & _ & Heq).
      rewrite Heq. clear Heq.
      destruct (pickLatestReleaseWithBinZip parse releases) as [l|].
      * destruct IH as (Hl & i & Hfl).
        assert (Hagree : incumbent_time parse (release l)
                         = time_of parse (release l)).
        { symmetry. destruct Hfl as (Hi & Hc & _).
          apply Hprefix; [now apply nth_error_In in Hi | assumption]. }
        rewrite Hagree.
        destruct (Z.gtb_spec (time_of parse x) (time_of parse (release l)))
          as [Hgt|Hle].
        -- simpl. split; [assumption|]. exists (List.length releases).
           now apply (first_latest_replace releases i (release l)).
        -- simpl. split; [assumption|]. exists i.
           now apply first_latest_keep.
      * simpl. split; [assumption|]. exists (List.length releases).
        now apply first_latest_initial.
    + rewrite (pick_step_skip parse _ x Hx).
      destruct (pickLatestReleaseWithBinZip parse releases) as [l|].
      * destruct IH as (Hl & i & Hfl). simpl. split; [assumption|].
        exists i. now apply first_latest_skip.
      * simpl in *. intros r Hin. apply in_app_or in Hin.
        destruct Hin as [Hin|[<-|[]]]; [now apply IH | assumption].
Qed.

(** When the two computations of a release's time agree.  It is enough
    that publishedAt is absent, or parses to a valid non-zero time, or
    that createdAt does not parse to one. *)
Lemma consistently_dated_when (r : Release) :
  JS.truthy_number (parse EmptyString) = false ->
  published_at r = None
  \/ JS.truthy_number
       (parse (JS.nullish_default (published_at r) EmptyString)) = true
  \/ JS.truthy_number
       (parse (JS.nullish_default (created_at r) EmptyString)) = false ->
  consistently_dated parse r.
Proof.
  intros Hempty H.
  assert (Hfalsy : forall n, JS.truthy_number n = false -> JS.or_zero n = 0).
  { intros [|z]; simpl; [reflexivity|].
    intros Hz. apply negb_false_iff in Hz. now apply Z.eqb_eq in Hz. }
  unfold consistently_dated, time_of, incumbent_time, latestTime_of,
    JS.or_number, JS.or_string. simpl.
  destruct (published_at r) as [p|] eqn:Hp; simpl.
  - destruct (JS.truthy_number (parse p)) eqn:Htp.
    + destruct p as [|c p']; simpl.
      * simpl in Htp. congruence.
      * reflexivity.
    + assert (Hc : JS.truthy_number
                     (parse (JS.nullish_default (created_at r) EmptyString))
                   = false).
      { destruct H as [H|[H|H]];
          [discriminate | simpl in H; congruence | assumption]. }
      rewrite (Hfalsy _ Hc).
      destruct p as [|c p']; simpl.
      * destruct (JS.truthy_string (created_at r));
          [now rewrite (Hfalsy _ Hempty)|reflexivity].
      * now rewrite (Hfalsy _ Htp).
  - rewrite Hempty.
    destruct (created_at r) as [[|c s]|]; simpl;
      first [reflexivity | now apply Hfalsy].
Qed.

(** The time computed for the retained release is the effective
    timestamp as the specification words it. *)
Lemma incumbent_time_is_spec (r : Release) :
  JS.truthy_number (parse EmptyString) = false ->
  incumbent_time parse r = effective_timestamp_spec parse r.
Proof.
  intros Hempty.
  assert (H0 : JS.or_zero (parse EmptyString) = 0).
  { destruct (parse EmptyString) as [|z]; simpl in *; [reflexivity|].
    apply negb_false_iff in Hempty. now apply Z.eqb_eq in Hempty. }
  unfold incumbent_time, latestTime_of, effective_timestamp_spec,
    JS.or_string. simpl.
  destruct (published_at r) as [[|c p]|]; simpl.
  - destruct (JS.truthy_string (created_at r)); now rewrite ?H0.
  - reflexivity.
  - destruct (created_at r) as [[|c s]|]; simpl; now rewrite ?H0.
Qed.

(** So is the time computed for the current entry, when the release is
    consistently dated. *)
Lemma time_of_is_spec (r : Release) :
  JS.truthy_number (parse EmptyString) = false ->
  consistently_dated parse r ->
  time_of parse r = effective_timestamp_spec parse r.
Proof.
  intros Hempty Hdated. rewrite Hdated. now apply incumbent_time_is_spec.
Qed.

End FirstLatest.

(** ** The claims about the selection *)

(** C1 (as stated) fails where the matching asset has no download URL: a
    listing whose only published release carries a matching asset without
    URL yields no result, and a newer such release loses to an older one
    that has a URL. *)
Lemma pick_passes_over_release_without_url :
  JS.truthy_bool (draft Sample.no_url) = false /\
  has_bin_zip Sample.no_url = true /\
  pickLatestReleaseWithBinZip IsoDate.parse [Sample.no_url] = None /\
  time_of IsoDate.parse Sample.v1 < time_of IsoDate.parse Sample.no_url /\
  pickLatestReleaseWithBinZip IsoDate.parse [Sample.v1; Sample.no_url]
  = Some {| release := Sample.v1; assetUrl := "A" |}.
Proof. repeat split; vm_compute; reflexivity. Qed.

(** C1 (amended): for every listing that contains a candidate (a
    non-draft release whose first matching asset has a non-empty download
    URL) and whose candidates are consistently dated, the selection returns
    the candidate of greatest time, and among candidates of equal time the
    one of smallest index; the URL returned is the one of its first
    matching asset. *)
Theorem pick_returns_first_latest_candidate
        (parse : string -> JS.number) (releases : list Release) :
  (forall r, In r releases -> candidate r = true ->
             consistently_dated parse r) ->
  (exists r, In r releases /\ candidate r = true) ->
  exists i sel,
    pickLatestReleaseWithBinZip parse releases = Some sel /\
    bin_zip_url (release sel) = Some (assetUrl sel) /\
    first_latest parse releases i (release sel).
Proof.
  intros Hdated (r & Hin & Hr).
  pose proof (pick_loop_state parse releases Hdated) as Hstate.
  destruct (pickLatestReleaseWithBinZip parse releases) as [sel|].
  - destruct Hstate as (Hurl & i & Hfl). now exists i, sel.
  - simpl in Hstate. rewrite (Hstate r Hin) in Hr. discriminate.
Qed.

Lemma pick_returns_first_latest_candidate_witness :
  exists i sel,
    pickLatestReleaseWithBinZip IsoDate.parse Sample.listing = Some sel /\
    bin_zip_url (release sel) = Some (assetUrl sel) /\
    first_latest IsoDate.parse Sample.listing i (release sel).
Proof.
  apply (pick_returns_first_latest_candidate IsoDate.parse Sample.listing).
  - intros r [<-|[<-|[<-|[]]]] _; reflexivity.
  - exists Sample.v1. split; [simpl; tauto | reflexivity].
Defined.

(** The specification's example: v2 with URL B is selected. *)
Example pick_sample_listing :
  pickLatestReleaseWithBinZip IsoDate.parse Sample.listing
  = Some {| release := Sample.v2; assetUrl := "B" |}.
Proof. reflexivity. Qed.

(** Ties go to the earlier entry. *)
Example pick_tie_keeps_first :
  pickLatestReleaseWithBinZip IsoDate.parse
    [Sample.v2; Sample.published "v2b" "2024-06-01" None
                  [Sample.asset "bin.zip" (Some "B2")]]
  = Some {| release := Sample.v2; assetUrl := "B" |}.
Proof. reflexivity. Qed.

(** C2: on a release whose publishedAt is present but does not parse and
    whose createdAt parses, the time computed for the current entry is the
    createdAt time, whereas the effective timestamp of the specification
    and the time computed for the same release once retained are both
    zero; the release selected then depends on the order of the listing. *)
Theorem effective_timestamp_computed_two_ways :
  time_of IsoDate.parse Sample.misdated = 1717200000000 /\
  effective_timestamp_spec IsoDate.parse Sample.misdated = 0 /\
  incumbent_time IsoDate.parse Sample.misdated = 0 /\
  pickLatestReleaseWithBinZip IsoDate.parse [Sample.v1; Sample.misdated]
  = Some {| release := Sample.misdated; assetUrl := "M" |} /\
  pickLatestReleaseWithBinZip IsoDate.parse [Sample.misdated; Sample.v1]
  = Some {| release := Sample.v1; assetUrl := "A" |}.
Proof. repeat split; vm_compute; reflexivity. Qed.

(** C3: whenever the selection produces a result, the chosen release is
    one of the listing, is not a draft, and has an asset whose name
    matches and whose download URL is the one returned; so no draft and no
    release without a matching asset is ever the chosen one. *)
Theorem selection_is_published_with_asset
        (parse : string -> JS.number) (releases : list Release)
        (sel : Selection) :
  pickLatestReleaseWithBinZip parse releases = Some sel ->
  (In (release sel) releases /\
   JS.truthy_bool (draft (release sel)) = false /\
   exists entries asset,
     assets (release sel) = Some entries /\ In asset entries /\
     is_bin_zip asset = true /\
     Asset.browser_download_url asset = Some (assetUrl sel)) /\
  (forall r, JS.truthy_bool (draft r) = true -> release sel <> r) /\
  (forall r, has_bin_zip r = false -> release sel <> r).
Proof.
  intros Hpick.
  destruct (pick_well_selected parse releases sel Hpick) as (Hin & Hc & Hurl).
  unfold candidate in Hc. apply andb_prop in Hc. destruct Hc as [Hd _].
  apply negb_true_iff in Hd.
  split; [|split].
  - split; [assumption|]. split; [assumption|].
    now apply bin_zip_url_asset.
  - intros r Hr Heq. rewrite <- Heq in Hr. congruence.
  - intros r Hr Heq. rewrite <- Heq in Hr.
    rewrite (bin_zip_url_has_bin_zip _ _ Hurl) in Hr. discriminate.
Qed.

Lemma selection_is_published_with_asset_witness :
  (In Sample.v2 Sample.listing /\
   JS.truthy_bool (draft Sample.v2) = false /\
   exists entries asset,
     assets Sample.v2 = Some entries /\ In asset entries /\
     is_bin_zip asset = true /\
     Asset.browser_download_url asset = Some "B") /\
  (forall r, JS.truthy_bool (draft r) = true -> Sample.v2 <> r) /\
  (forall r, has_bin_zip r = false -> Sample.v2 <> r).
Proof.
  apply (selection_is_published_with_asset IsoDate.parse Sample.listing
           {| release := Sample.v2; assetUrl := "B" |}).
  reflexivity.
Defined.

Ltac by_cases_on_code c :=
  destruct c as [[] [] [] [] [] [] [] []]; vm_compute;
  (split; [intros H; first [discriminate H | auto]
          | intros [H|H]; first [discriminate H | reflexivity]]).

Lemma lower_ascii_b c : JS.lower_ascii c = "b"%char <-> c = "b"%char \/ c = "B"%char.
Proof. by_cases_on_code c. Qed.

Lemma lower_ascii_i c : JS.lower_ascii c = "i"%char <-> c = "i"%char \/ c = "I"%char.
Proof. by_cases_on_code c. Qed.

Lemma lower_ascii_n c : JS.lower_ascii c = "n"%char <-> c = "n"%char \/ c = "N"%char.
Proof. by_cases_on_code c. Qed.

Lemma lower_ascii_z c : JS.lower_ascii c = "z"%char <-> c = "z"%char \/ c = "Z"%char.
Proof. by_cases_on_code c. Qed.

Lemma lower_ascii_p c : JS.lower_ascii c = "p"%char <-> c = "p"%char \/ c = "P"%char.
Proof. by_cases_on_code c. Qed.

Lemma lower_ascii_dot c : JS.lower_ascii c = "."%char <-> c = "."%char.
Proof.
  destruct c as [[] [] [] [] [] [] [] []]; vm_compute;
    (split; intros H; first [discriminate H | reflexivity]).
Qed.

(** The names that lower-case to the target are its upper/lower-case
    spellings, letter by letter. *)
Lemma toLowerCase_bin_zip (n : string) :
  JS.toLowerCase n = "bin.zip" <->
  exists c1 c2 c3 c4 c5 c6 c7,
    n = String c1 (String c2 (String c3 (String c4
          (String c5 (String c6 (String c7 EmptyString)))))) /\
    (c1 = "b" \/ c1 = "B")%char /\ (c2 = "i" \/ c2 = "I")%char /\
    (c3 = "n" \/ c3 = "N")%char /\ c4 = "."%char /\
    (c5 = "z" \/ c5 = "Z")%char /\ (c6 = "i" \/ c6 = "I")%char /\
    (c7 = "p" \/ c7 = "P")%char.
Proof.
  split.
  - intros H.
    destruct n as [|c1 [|c2 [|c3 [|c4 [|c5 [|c6 [|c7 [|c8 n]]]]]]]];
      simpl in H; try discriminate H.
    injection H as H1 H2 H3 H4 H5 H6 H7.
    exists c1, c2, c3, c4, c5, c6, c7. split; [reflexivity|].
    repeat split;
      first [ now apply lower_ascii_b | now apply lower_ascii_i
            | now apply lower_ascii_n | now apply lower_ascii_dot
            | now apply lower_ascii_z | now apply lower_ascii_p ].
  - intros (c1 & c2 & c3 & c4 & c5 & c6 & c7 & -> & H1 & H2 & H3 & H4 & H5 & H6 & H7).
    apply lower_ascii_b in H1. apply lower_ascii_i in H2.
    apply lower_ascii_n in H3. apply lower_ascii_dot in H4.
    apply lower_ascii_z in H5. apply lower_ascii_i in H6.
    apply lower_ascii_p in H7.
    simpl. now rewrite H1, H2, H3, H4, H5, H6, H7.
Qed.

Lemma is_bin_zip_iff (entry : Asset.t) :
  is_bin_zip entry = true <->
  exists n, Asset.name entry = Some n /\ JS.toLowerCase n = "bin.zip".
Proof.
  unfold is_bin_zip. rewrite String.eqb_eq. split.
  - destruct (Asset.name entry) as [n|]; simpl; [|discriminate].
    intros H. now exists n.
  - intros (n & -> & H). exact H.
Qed.

Lemma is_bin_zip_false_iff (entry : Asset.t) :
  is_bin_zip entry = false <->
  forall n, Asset.name entry = Some n -> JS.toLowerCase n <> "bin.zip".
Proof.
  split.
  - intros Hf n Hn Hlow.
    assert (H : is_bin_zip entry = true) by (apply is_bin_zip_iff; now exists n).
    congruence.
  - intros H. destruct (is_bin_zip entry) eqn:E; [|reflexivity].
    apply is_bin_zip_iff in E. destruct E as (n & Hn & Hlow).
    now elim (H n Hn).
Qed.

(** [Array.prototype.find]: the result is the first element that
    satisfies the predicate. *)
Lemma find_first {A : Type} (f : A -> bool) (l : list A) (x : A) :
  find f l = Some x <->
  exists before after_,
    l = before ++ x :: after_ /\ f x = true /\
    forall e, In e before -> f e = false.
Proof.
  split.
  - induction l as [|y l IH]; simpl; [discriminate|].
    destruct (f y) eqn:Hy.
    + intros [= <-]. exists [], l. repeat split; [assumption|intros e []].
    + intros H. destruct (IH H) as (before & after_ & -> & Hx & Hb).
      exists (y :: before), after_. repeat split; [assumption|].
      intros e [<-|He]; [assumption|now apply Hb].
  - intros (before & after_ & -> & Hx & Hb).
    induction before as [|y before IH]; simpl.
    + now rewrite Hx.
    + rewrite (Hb y (or_introl eq_refl)). apply IH.
      intros e He. apply Hb. now right.
Qed.

Lemma find_bin_zip_first (r : Release) (asset : Asset.t) :
  find_bin_zip r = Some asset <->
  exists before after_,
    assets r = Some (before ++ asset :: after_) /\
    (exists n, Asset.name asset = Some n /\ JS.toLowerCase n = "bin.zip") /\
    (forall e n, In e before -> Asset.name e = Some n ->
                 JS.toLowerCase n <> "bin.zip").
Proof.
  unfold find_bin_zip. split.
  - destruct (assets r) as [entries|]; [|discriminate].
    intros H. apply find_first in H.
    destruct H as (before & after_ & -> & Hx & Hb).
    exists before, after_. split; [reflexivity|].
    split; [now apply is_bin_zip_iff|].
    intros e n He. now apply is_bin_zip_false_iff, Hb.
  - intros (before & after_ & -> & Hx & Hb).
    apply find_first. exists before, after_. split; [reflexivity|].
    split; [now apply is_bin_zip_iff|].
    intros e He. apply is_bin_zip_false_iff. intros n. now apply Hb.
Qed.

(** C4: the selection matches asset names without regard to case.  An
    asset matches exactly when it has a name whose lower-casing is the
    target name, that is, when the name spells the target in any mix of
    upper and lower case; the asset the selection consults in a release
    is the first one whose lower-cased name is the target; a published
    release whose first such asset, however its name is cased, has a
    download URL is selected with that URL, and a release none of whose
    assets lower-cases to the target is not selected; in particular an
    asset named Bin.ZIP is selected. *)
Theorem asset_match_is_case_insensitive :
  (forall entry : Asset.t,
      is_bin_zip entry = true <->
      exists n, Asset.name entry = Some n /\ JS.toLowerCase n = "bin.zip") /\
  (forall entry : Asset.t,
      is_bin_zip entry = true <->
      exists c1 c2 c3 c5 c6 c7,
        Asset.name entry =
        Some (String c1 (String c2 (String c3 (String "."
               (String c5 (String c6 (String c7 EmptyString))))))) /\
        (c1 = "b" \/ c1 = "B")%char /\ (c2 = "i" \/ c2 = "I")%char /\
        (c3 = "n" \/ c3 = "N")%char /\
        (c5 = "z" \/ c5 = "Z")%char /\ (c6 = "i" \/ c6 = "I")%char /\
        (c7 = "p" \/ c7 = "P")%char) /\
  (forall (r : Release) (asset : Asset.t),
      find_bin_zip r = Some asset <->
      exists before after_,
        assets r = Some (before ++ asset :: after_) /\
        (exists n, Asset.name asset = Some n
                   /\ JS.toLowerCase n = "bin.zip") /\
        (forall e n, In e before -> Asset.name e = Some n ->
                     JS.toLowerCase n <> "bin.zip")) /\
  (forall (parse : string -> JS.number) (r : Release) (n url : string)
          (before after_ : list Asset.t),
      JS.truthy_bool (draft r) = false ->
      assets r
      = Some (before
              ++ {| Asset.name := Some n;
                    Asset.browser_download_url := Some url |} :: after_) ->
      (forall e m, In e before -> Asset.name e = Some m ->
                   JS.toLowerCase m <> "bin.zip") ->
      JS.toLowerCase n = "bin.zip" ->
      url <> EmptyString ->
      pickLatestReleaseWithBinZip parse [r]
      = Some {| release := r; assetUrl := url |}) /\
  (forall (parse : string -> JS.number) (r : Release),
      (forall entries e n,
          assets r = Some entries -> In e entries ->
          Asset.name e = Some n -> JS.toLowerCase n <> "bin.zip") ->
      pickLatestReleaseWithBinZip parse [r] = None) /\
  (forall parse : string -> JS.number,
      pickLatestReleaseWithBinZip parse
        [Sample.published "v7" "2024-03-01" None
           [Sample.asset "Bin.ZIP" (Some "Z")]]
      = Some {| release :=
                  Sample.published "v7" "2024-03-01" None
                    [Sample.asset "Bin.ZIP" (Some "Z")];
                assetUrl := "Z" |}).
Proof.
  split; [exact is_bin_zip_iff|].
  split; [|split; [exact find_bin_zip_first|split; [|split]]].
  - intros entry. rewrite is_bin_zip_iff. split.
    + intros (n & Hn & Hlow). apply toLowerCase_bin_zip in Hlow.
      destruct Hlow as (c1 & c2 & c3 & c4 & c5 & c6 & c7 & -> & H1 & H2 & H3
                        & -> & H5 & H6 & H7).
      now exists c1, c2, c3, c5, c6, c7.
    + intros (c1 & c2 & c3 & c5 & c6 & c7 & Hn & H1 & H2 & H3 & H5 & H6 & H7).
      eexists. split; [exact Hn|]. apply toLowerCase_bin_zip.
      exists c1, c2, c3, "."%char, c5, c6, c7. now repeat split.
  - intros parse r n url before after_ Hd Hassets Hbefore Hlow Hurl.
    assert (Hfind : find_bin_zip r
                    = Some {| Asset.name := Some n;
                              Asset.browser_download_url := Some url |}).
    { apply find_bin_zip_first. exists before, after_.
      split; [assumption|]. split; [now exists n|assumption]. }
    unfold pickLatestReleaseWithBinZip. simpl.
    unfold pick_step, bin_zip_url. rewrite Hd, Hfind. simpl.
    destruct url; [now elim Hurl|reflexivity].
  - intros parse r Hnone.
    unfold pickLatestReleaseWithBinZip. simpl. apply pick_step_skip.
    unfold candidate, bin_zip_url.
    destruct (find_bin_zip r) as [asset|] eqn:Hfind;
      [|simpl; apply andb_false_r].
    exfalso. apply find_bin_zip_first in Hfind.
    destruct Hfind as (before & after_ & Hassets & (n & Hn & Hlow) & _).
    apply (Hnone _ asset n Hassets); try assumption.
    apply in_or_app. right. now left.
  - intros parse. reflexivity.
Qed.

Lemma asset_match_is_case_insensitive_witness :
  pickLatestReleaseWithBinZip IsoDate.parse
    [Sample.published "v8" "2024-04-01" (Some false)
       [Sample.asset "readme.md" (Some "R");
        Sample.asset "BIN.Zip" (Some "Y")]]
  = Some {| release :=
              Sample.published "v8" "2024-04-01" (Some false)
                [Sample.asset "readme.md" (Some "R");
                 Sample.asset "BIN.Zip" (Some "Y")];
            assetUrl := "Y" |}.
Proof.
  apply (proj1 (proj2 (proj2 (proj2 asset_match_is_case_insensitive)))
           IsoDate.parse _ "BIN.Zip" "Y"
           [Sample.asset "readme.md" (Some "R")] []).
  - reflexivity.
  - reflexivity.
  - intros e m [<-|[]] [= <-]. discriminate.
  - reflexivity.
  - discriminate.
Defined.

(** C10: only the first asset whose name matches is consulted; a release
    whose first matching asset has no (or an empty) download URL leaves
    the loop's state unchanged, so the listing selects as if the release
    were not there, whatever its later assets are. *)
Theorem first_matching_asset_decides
        (parse : string -> JS.number) (before after : list Release)
        (r : Release) (first : Asset.t) :
  find_bin_zip r = Some first ->
  JS.truthy_string (Asset.browser_download_url first) = false ->
  (forall latest, pick_step parse latest r = latest) /\
  pickLatestReleaseWithBinZip parse (before ++ r :: after)
  = pickLatestReleaseWithBinZip parse (before ++ after).
Proof.
  intros Hfind Hurl.
  assert (Hskip : forall latest, pick_step parse latest r = latest).
  { intros latest. apply pick_step_skip.
    unfold candidate, bin_zip_url. rewrite Hfind, Hurl.
    apply andb_false_r. }
  split; [exact Hskip|].
  unfold pickLatestReleaseWithBinZip.
  rewrite !fold_left_app. simpl. now rewrite Hskip.
Qed.

Lemma first_matching_asset_decides_witness :
  existsb (fun a => is_bin_zip a
                    && JS.truthy_string (Asset.browser_download_url a))
          (JS.nullish_default (assets Sample.second_has_url) []) = true /\
  (forall latest,
      pick_step IsoDate.parse latest Sample.second_has_url = latest) /\
  pickLatestReleaseWithBinZip IsoDate.parse
    ([Sample.v1] ++ Sample.second_has_url :: [Sample.v2])
  = pickLatestReleaseWithBinZip IsoDate.parse ([Sample.v1] ++ [Sample.v2]).
Proof.
  split; [reflexivity|].
  apply (first_matching_asset_decides IsoDate.parse [Sample.v1] [Sample.v2]
           Sample.second_has_url (Sample.asset "BIN.zip" None));
    reflexivity.
Defined.

(** * Properties of the HTTP helpers *)


Section HttpFacts.

Variable URL_resolve : string -> string -> completion string.
Variable https_get : nat -> string -> reply.
Context {T : Type}.
Variable JSON_parse : string -> completion T.
Variable pipeline_to_file : IncomingMessage -> string -> option Error.

Local Abbreviation requestJson' := (requestJson URL_resolve https_get JSON_parse).
Local Abbreviation downloadToFile' :=
  (downloadToFile URL_resolve https_get pipeline_to_file).
Local Abbreviation reaches' := (reaches URL_resolve https_get).

(** The body of [requestJson], as the source has it. *)
Lemma requestJson_body (url : string) (redirects : nat) :
  requestJson' url redirects =
  match https_get redirects url with
  | RequestError err => ([HttpGet url], Rejected err)
  | Response res =>
      if follows_redirect res redirects then
        match URL_resolve
                (JS.nullish_default (headers_location res) EmptyString) url
        with
        | Thrown e => ([HttpGet url], Uncaught e)
        | Normal nextUrl =>
            after (HttpGet url) (requestJson' nextUrl (redirects + 1)%nat)
        end
      else
        ([HttpGet url],
         if is_failure_status (status_of res)
         then Rejected
                (MkError (String.append "Request failed with status "
                                        (JS.toString (status_of res))))
         else
           match JSON_parse (String.concat EmptyString (chunks res)) with
           | Normal value => Resolved value
           | Thrown err => Rejected err
           end)
  end.
Proof.
  funelim (requestJson' url redirects);
    repeat match goal with
           | H : ?a = _ |- context [match ?a with _ => _ end] => rewrite H
           end; reflexivity.
Qed.

(** The body of [downloadToFile], as the source has it. *)
Lemma downloadToFile_body (url filePath : string) (redirects : nat) :
  downloadToFile' url filePath redirects =
  match https_get redirects url with
  | RequestError err => ([HttpGet url], Rejected err)
  | Response res =>
      if follows_redirect res redirects then
        match URL_resolve
                (JS.nullish_default (headers_location res) EmptyString) url
        with
        | Thrown e => ([HttpGet url], Uncaught e)
        | Normal nextUrl =>
            after (HttpGet url)
                  (downloadToFile' nextUrl filePath (redirects + 1)%nat)
        end
      else if is_failure_status (status_of res)
      then ([HttpGet url],
            Rejected
              (MkError (String.append "Download failed with status "
                                      (JS.toString (status_of res)))))
      else ([HttpGet url; CreateWriteStream filePath],
            match pipeline_to_file res filePath with
            | None => Resolved tt
            | Some err => Rejected err
            end)
  end.
Proof.
  funelim (downloadToFile' url filePath redirects);
    repeat match goal with
           | H : ?a = _ |- context [match ?a with _ => _ end] => rewrite H
           end; try reflexivity.
  all: destruct (is_failure_status (status_of res)); reflexivity.
Qed.

Lemma follows_redirect_lt (res : IncomingMessage) (redirects : nat) :
  follows_redirect res redirects = true -> (redirects < maxRedirects)%nat.
Proof.
  unfold follows_redirect. intros H. apply andb_prop in H.
  destruct H as [_ H]. now apply Nat.ltb_lt.
Qed.

Lemma is_failure_status_spec (status : Z) :
  is_failure_status status = false <-> 200 <= status < 300.
Proof.
  unfold is_failure_status. rewrite orb_false_iff, Z.ltb_ge, Z.leb_gt. lia.
Qed.

Lemma success_not_redirect (res : IncomingMessage) (redirects : nat) :
  200 <= status_of res < 300 -> follows_redirect res redirects = false.
Proof.
  intros H. unfold follows_redirect.
  destruct (Z.leb_spec 300 (status_of res)); [lia|reflexivity].
Qed.

(** Induction along the redirects an operation follows: a property of
    a request holds as soon as it follows from the same property of the
    request issued for a followed redirect. *)
Lemma redirect_induction (P : string -> nat -> Prop) :
  (forall url redirects,
      (forall res nextUrl,
          https_get redirects url = Response res ->
          follows_redirect res redirects = true ->
          URL_resolve
            (JS.nullish_default (headers_location res) EmptyString) url
          = Normal nextUrl ->
          P nextUrl (redirects + 1)%nat) ->
      P url redirects) ->
  forall url redirects, P url redirects.
Proof.
  intros Hstep url redirects.
  remember (maxRedirects - redirects)%nat as budget eqn:Hb.
  revert url redirects Hb.
  induction budget as [budget IH] using lt_wf_ind.
  intros url redirects ->. apply Hstep.
  intros res nextUrl _ Hfollow _.
  apply (IH (maxRedirects - (redirects + 1))%nat); [|reflexivity].
  now apply (redirect_budget_decreases res).
Qed.



(** A chain of followed redirects never goes past the maximum. *)
Lemma reaches_bound (s s' : string * nat) :
  reaches' s s' ->
  (snd s <= snd s')%nat /\ (snd s' <= Nat.max (snd s) maxRedirects)%nat.
Proof.
  induction 1 as [s|s s' s'' Hstep _ IH].
  - lia.
  - destruct Hstep as [url nextUrl redirects res _ Hf _].
    apply follows_redirect_lt in Hf. simpl in *. lia.
Qed.

(** The outcome of an operation is the outcome of the request its
    redirects lead to. *)
Lemma reaches_requestJson (s s' : string * nat) :
  reaches' s s' ->
  snd (requestJson' (fst s) (snd s)) = snd (requestJson' (fst s') (snd s')).
Proof.
  induction 1 as [s|s s' s'' Hstep _ IH]; [reflexivity|].
  rewrite <- IH. destruct Hstep as [url nextUrl redirects res Hg Hf Hu].
  simpl. rewrite (requestJson_body url), Hg, Hf, Hu. reflexivity.
Qed.

Lemma reaches_downloadToFile (filePath : string) (s s' : string * nat) :
  reaches' s s' ->
  snd (downloadToFile' (fst s) filePath (snd s))
  = snd (downloadToFile' (fst s') filePath (snd s')).
Proof.
  induction 1 as [s|s s' s'' Hstep _ IH]; [reflexivity|].
  rewrite <- IH. destruct Hstep as [url nextUrl redirects res Hg Hf Hu].
  simpl. rewrite (downloadToFile_body url), Hg, Hf, Hu. reflexivity.
Qed.

Lemma requestJson_along (url url' : string) (redirects redirects' : nat) :
  reaches' (url, redirects) (url', redirects') ->
  snd (requestJson' url redirects) = snd (requestJson' url' redirects').
Proof. exact (reaches_requestJson (url, redirects) (url', redirects')). Qed.

Lemma downloadToFile_along (filePath url url' : string)
      (redirects redirects' : nat) :
  reaches' (url, redirects) (url', redirects') ->
  snd (downloadToFile' url filePath redirects)
  = snd (downloadToFile' url' filePath redirects').
Proof.
  exact (reaches_downloadToFile filePath (url, redirects) (url', redirects')).
Qed.

(** A response that is not followed and whose status is outside
    200-299 rejects with that status in the message. *)
Lemma requestJson_failure (url : string) (redirects : nat)
      (res : IncomingMessage) :
  https_get redirects url = Response res ->
  follows_redirect res redirects = false ->
  is_failure_status (status_of res) = true ->
  requestJson' url redirects =
  ([HttpGet url],
   Rejected (MkError (String.append "Request failed with status "
                                    (JS.toString (status_of res))))).
Proof.
  intros Hg Hf Hs. now rewrite requestJson_body, Hg, Hf, Hs.
Qed.

Lemma downloadToFile_failure (url filePath : string) (redirects : nat)
      (res : IncomingMessage) :
  https_get redirects url = Response res ->
  follows_redirect res redirects = false ->
  is_failure_status (status_of res) = true ->
  downloadToFile' url filePath redirects =
  ([HttpGet url],
   Rejected (MkError (String.append "Download failed with status "
                                    (JS.toString (status_of res))))).
Proof.
  intros Hg Hf Hs. now rewrite downloadToFile_body, Hg, Hf, Hs.
Qed.

End HttpFacts.

(** The decimal rendering of a status determines the status. *)
Lemma toString_injective (a b : Z) :
  JS.toString a = JS.toString b -> a = b.
Proof.
  unfold JS.toString. intros H.
  assert (Hnn : forall z, Z.to_int z <> Decimal.Pos Decimal.Nil
                          /\ Z.to_int z <> Decimal.Neg Decimal.Nil).
  { intros [|p|p]; simpl; split; try discriminate;
      intros [= Hp]; now apply (DecimalPos.Unsigned.to_uint_nonnil p). }
  apply DecimalZ.to_int_inj.
  assert (Some (Z.to_int a) = Some (Z.to_int b)) as [= ->]; [|reflexivity].
  rewrite <- (NilZero.isi (Z.to_int a)), <- (NilZero.isi (Z.to_int b))
    by apply Hnn.
  now rewrite H.
Qed.

(** ** The claims about the HTTP helpers *)



(** A server that redirects for ever is asked six times, then the
    operation fails. *)
Example requestJson_redirect_loop :
  requestJson SampleNet.absolute SampleNet.loop_server SampleNet.parse_latest
              "https://example.com/start" 0
  = ([HttpGet "https://example.com/start"; HttpGet "https://example.com/loop";
      HttpGet "https://example.com/loop"; HttpGet "https://example.com/loop";
      HttpGet "https://example.com/loop"; HttpGet "https://example.com/loop"],
     Rejected (MkError "Request failed with status 302")).
Proof. reflexivity. Qed.

(** C6: when the response an operation ends on is not a followed redirect
    and its status is outside 200-299, both operations fail with an error
    whose message carries that status, the decimal rendering of which
    determines it. *)
Theorem non_success_status_rejects
        (URL_resolve : string -> string -> completion string)
        (https_get : nat -> string -> reply)
        (T : Type) (JSON_parse : string -> completion T)
        (pipeline_to_file : IncomingMessage -> string -> option Error)
        (url filePath : string) (redirects : nat)
        (url' : string) (redirects' : nat) (res : IncomingMessage) :
  reaches URL_resolve https_get (url, redirects) (url', redirects') ->
  https_get redirects' url' = Response res ->
  follows_redirect res redirects' = false ->
  ~ (200 <= status_of res < 300) ->
  snd (requestJson URL_resolve https_get JSON_parse url redirects)
  = Rejected (MkError (String.append "Request failed with status "
                                     (JS.toString (status_of res)))) /\
  snd (downloadToFile URL_resolve https_get pipeline_to_file
                      url filePath redirects)
  = Rejected (MkError (String.append "Download failed with status "
                                     (JS.toString (status_of res)))) /\
  (forall status,
      JS.toString status = JS.toString (status_of res) ->
      status = status_of res).
Proof.
  intros Hreach Hg Hf Hs.
  assert (Hfail : is_failure_status (status_of res) = true).
  { destruct (is_failure_status (status_of res)) eqn:E; [reflexivity|].
    apply is_failure_status_spec in E. contradiction. }
  split; [|split].
  - rewrite (requestJson_along _ _ JSON_parse _ _ _ _ Hreach).
    now rewrite (requestJson_failure _ _ JSON_parse _ _ res).
  - rewrite (downloadToFile_along _ _ pipeline_to_file filePath _ _ _ _ Hreach).
    now rewrite (downloadToFile_failure _ _ pipeline_to_file _ _ _ res).
  - intros status. apply toString_injective.
Qed.

Lemma non_success_status_rejects_witness :
  snd (requestJson SampleNet.absolute
         (SampleNet.one_redirect (SampleNet.answer 404 ["Not Found"]))
         SampleNet.parse_latest "https://example.com/start" 0)
  = Rejected (MkError "Request failed with status 404") /\
  snd (downloadToFile SampleNet.absolute
         (SampleNet.one_redirect (SampleNet.answer 404 ["Not Found"]))
         (fun _ _ => None) "https://example.com/start" "/tmp/x/bin.zip" 0)
  = Rejected (MkError "Download failed with status 404") /\
  (forall status, JS.toString status = "404" -> status = 404).
Proof.
  apply (non_success_status_rejects
           SampleNet.absolute
           (SampleNet.one_redirect (SampleNet.answer 404 ["Not Found"]))
           LatestRelease SampleNet.parse_latest (fun _ _ => None)
           "https://example.com/start" "/tmp/x/bin.zip" 0%nat
           "https://example.com/final" 1%nat
           (SampleNet.answer 404 ["Not Found"])).
  - eapply reaches_next; [|apply reaches_here].
    apply (redirected_intro _ _ "https://example.com/start"
             "https://example.com/final" 0%nat
             (SampleNet.redirect_to "https://example.com/final"));
      reflexivity.
  - reflexivity.
  - reflexivity.
  - unfold status_of. simpl. lia.
Defined.

(** C8: when the response [requestJson] ends on has a status in 200-299,
    the concatenated body is parsed; the operation resolves with the
    parsed value, and rejects with the parser's error when the body is
    malformed. *)
Theorem success_parses_body
        (URL_resolve : string -> string -> completion string)
        (https_get : nat -> string -> reply)
        (T : Type) (JSON_parse : string -> completion T)
        (url : string) (redirects : nat)
        (url' : string) (redirects' : nat) (res : IncomingMessage) :
  reaches URL_resolve https_get (url, redirects) (url', redirects') ->
  https_get redirects' url' = Response res ->
  200 <= status_of res < 300 ->
  (forall value,
      JSON_parse (String.concat EmptyString (chunks res)) = Normal value ->
      snd (requestJson URL_resolve https_get JSON_parse url redirects)
      = Resolved value) /\
  (forall err,
      JSON_parse (String.concat EmptyString (chunks res)) = Thrown err ->
      snd (requestJson URL_resolve https_get JSON_parse url redirects)
      = Rejected err).
Proof.
  intros Hreach Hg Hs.
  assert (Hend : snd (requestJson URL_resolve https_get JSON_parse
                                  url redirects)
                 = match JSON_parse (String.concat EmptyString (chunks res))
                   with
                   | Normal value => Resolved value
                   | Thrown err => Rejected err
                   end).
  { rewrite (requestJson_along _ _ JSON_parse _ _ _ _ Hreach).
    rewrite requestJson_body, Hg, (success_not_redirect res redirects' Hs).
    apply is_failure_status_spec in Hs. now rewrite Hs. }
  split; intros x Hx; now rewrite Hend, Hx.
Qed.

Lemma success_parses_body_witness :
  (forall value,
      SampleNet.parse_latest
        (String.concat EmptyString
           (chunks (SampleNet.answer 200 ["{"; "}"])))
      = Normal value ->
      snd (requestJson SampleNet.absolute
             (SampleNet.one_redirect (SampleNet.answer 200 ["{"; "}"]))
             SampleNet.parse_latest "https://example.com/start" 0)
      = Resolved value) /\
  (forall err,
      SampleNet.parse_latest
        (String.concat EmptyString
           (chunks (SampleNet.answer 200 ["{"; "}"])))
      = Thrown err ->
      snd (requestJson SampleNet.absolute
             (SampleNet.one_redirect (SampleNet.answer 200 ["{"; "}"]))
             SampleNet.parse_latest "https://example.com/start" 0)
      = Rejected err).
Proof.
  apply (success_parses_body
           SampleNet.absolute
           (SampleNet.one_redirect (SampleNet.answer 200 ["{"; "}"]))
           LatestRelease SampleNet.parse_latest
           "https://example.com/start" 0%nat
           "https://example.com/final" 1%nat
           (SampleNet.answer 200 ["{"; "}"])).
  - eapply reaches_next; [|apply reaches_here].
    apply (redirected_intro _ _ "https://example.com/start"
             "https://example.com/final" 0%nat
             (SampleNet.redirect_to "https://example.com/final"));
      reflexivity.
  - reflexivity.
  - unfold status_of. simpl. lia.
Defined.

(** A well-formed body resolves, a malformed one rejects with the
    parser's error. *)
Example requestJson_well_formed :
  requestJson SampleNet.absolute
    (fun _ _ => Response (SampleNet.answer 200 [SampleNet.latest_body "v1.0.0"]))
    SampleNet.parse_latest LATEST_RELEASE_URL 0
  = ([HttpGet LATEST_RELEASE_URL], Resolved {| tag_name := Some "v1.0.0" |}).
Proof. reflexivity. Qed.

Example requestJson_malformed :
  requestJson SampleNet.absolute
    (fun _ _ => Response (SampleNet.answer 200 ["<html>"]))
    SampleNet.parse_latest LATEST_RELEASE_URL 0
  = ([HttpGet LATEST_RELEASE_URL],
     Rejected (MkError "Unexpected token in JSON")).
Proof. reflexivity. Qed.

(** * Properties of the resolver and of [main] *)

Section ProgramFacts.

Variable w : World.

Lemma In_bind {A B : Type} (m : Eff A) (k : A -> Eff B) (a : action) :
  In a (fst (bind m k)) ->
  In a (fst m) \/ exists x, snd m = Resolved x /\ In a (fst (k x)).
Proof.
  unfold bind. destruct (snd m) as [x|e|e|c]; simpl; try tauto.
  intros H. apply in_app_or in H. destruct H as [H|H]; [now left|].
  right. now exists x.
Qed.

Lemma bind_resolved {A B : Type} (m : Eff A) (k : A -> Eff B) (y : B) :
  snd (bind m k) = Resolved y ->
  exists x, snd m = Resolved x /\ snd (k x) = Resolved y.
Proof.
  unfold bind. destruct (snd m) as [x|e|e|c]; simpl; try discriminate.
  intros H. now exists x.
Qed.


Lemma try_finally_resolved {A : Type} (body : Eff A) (cleanup : Eff unit)
      (x : A) :
  snd (try_finally body cleanup) = Resolved x -> snd body = Resolved x.
Proof.
  unfold try_finally. destruct (snd body) as [y|e|e|c]; simpl;
    try discriminate.
  all: destruct (snd cleanup); simpl; congruence.
Qed.

(** The requests are the only actions of [requestJson]. *)
Lemma requestJson_trace {T : Type} (resolve : string -> string -> completion string)
      (get : nat -> string -> reply) (parse : string -> completion T)
      (url : string) (redirects : nat) (a : action) :
  In a (fst (requestJson resolve get parse url redirects)) ->
  exists u, a = HttpGet u.
Proof.
  revert url redirects.
  apply (redirect_induction resolve get
           (fun url redirects =>
              In a (fst (requestJson resolve get parse url redirects)) ->
              exists u, a = HttpGet u)).
  intros url redirects IH. rewrite requestJson_body.
  destruct (get redirects url) as [res|err].
  - destruct (follows_redirect res redirects) eqn:Hf.
    + destruct (resolve _ url) as [nextUrl|e] eqn:Hu.
      * simpl. intros [<-|H]; [now exists url|].
        now apply (IH res nextUrl).
      * simpl. intros [<-|[]]. now exists url.
    + simpl. intros [<-|[]]. now exists url.
  - simpl. intros [<-|[]]. now exists url.
Qed.

(** [downloadToFile] only issues requests and opens its destination. *)
Lemma downloadToFile_trace (resolve : string -> string -> completion string)
      (get : nat -> string -> reply)
      (pipe : IncomingMessage -> string -> option Error)
      (url filePath : string) (redirects : nat) (a : action) :
  In a (fst (downloadToFile resolve get pipe url filePath redirects)) ->
  (exists u, a = HttpGet u) \/ a = CreateWriteStream filePath.
Proof.
  revert url redirects.
  apply (redirect_induction resolve get
           (fun url redirects =>
              In a (fst (downloadToFile resolve get pipe url filePath
                                        redirects)) ->
              (exists u, a = HttpGet u) \/ a = CreateWriteStream filePath)).
  intros url redirects IH. rewrite downloadToFile_body.
  destruct (get redirects url) as [res|err].
  - destruct (follows_redirect res redirects) eqn:Hf.
    + destruct (resolve _ url) as [nextUrl|e] eqn:Hu.
      * simpl. intros [<-|H]; [left; now exists url|].
        now apply (IH res nextUrl).
      * simpl. intros [<-|[]]. left. now exists url.
    + destruct (is_failure_status (status_of res)); simpl.
      * intros [<-|[]]. left. now exists url.
      * intros [<-|[<-|[]]]; [left; now exists url | now right].
  - simpl. intros [<-|[]]. left. now exists url.
Qed.

Lemma fetchLatestTag_trace (a : action) :
  In a (fst (fetchLatestTag w)) -> exists u, a = HttpGet u.
Proof.
  unfold fetchLatestTag. intros H. apply In_bind in H.
  destruct H as [H|(data & _ & H)].
  - now apply requestJson_trace in H.
  - destruct (tag_name data) as [[|c t]|]; destruct H.
Qed.

Lemma fetchLatestBinaryZipUrl_trace (a : action) :
  In a (fst (fetchLatestBinaryZipUrl w)) -> exists u, a = HttpGet u.
Proof.
  unfold fetchLatestBinaryZipUrl. intros H. apply In_bind in H.
  destruct H as [H|(releases & _ & H)].
  - now apply requestJson_trace in H.
  - destruct (pickLatestReleaseWithBinZip _ releases); destruct H.
Qed.

Lemma In_perform (x a : action) :
  In a (fst (perform x)) -> a = x.
Proof. simpl. intros [<-|[]]. reflexivity. Qed.

Lemma In_step (x a : action) (failure : option Error) :
  In a (fst (step x failure)) -> a = x.
Proof. simpl. intros [<-|[]]. reflexivity. Qed.

End ProgramFacts.

Section TryBlock.

Variable w : World.
Variables tarballUrl binaryZipUrl tarPath zipPath targetDir : string.

Local Abbreviation download_template :=
  (downloadToFile (URL_resolve w) (https_get w 2%nat) (pipeline_to_file w)
                  tarballUrl tarPath 0).
Local Abbreviation download_binary :=
  (downloadToFile (URL_resolve w) (https_get w 3%nat) (pipeline_to_file w)
                  binaryZipUrl zipPath 0).
Local Abbreviation try_block :=
  (acquire_and_extract w tarballUrl binaryZipUrl tarPath zipPath targetDir).

(** The [try] block gets past its first two statements only when both
    downloads have resolved. *)
Lemma try_block_after_downloads (a : action) :
  In a (fst try_block) ->
  (In a (fst download_template) \/ In a (fst download_binary)) \/
  (snd download_template = Resolved tt /\ snd download_binary = Resolved tt).
Proof.
  unfold acquire_and_extract. intros H.
  apply In_bind in H. destruct H as [H|([] & H1 & H)]; [tauto|].
  apply In_bind in H. destruct H as [H|([] & H2 & H)]; [tauto|].
  now right.
Qed.

Lemma try_block_populates (a : action) :
  In a (fst try_block) -> populates a = true ->
  snd download_template = Resolved tt /\ snd download_binary = Resolved tt.
Proof.
  intros H Hp. apply try_block_after_downloads in H.
  destruct H as [[H|H]|H]; [| |exact H].
  all: apply downloadToFile_trace in H; destruct H as [[u ->]| ->];
    discriminate.
Qed.


(** Inside the [try] block only the two downloads open a file for
    writing, each its own destination, and nothing is removed. *)
Lemma try_block_actions (a : action) :
  In a (fst try_block) ->
  (exists u, a = HttpGet u) \/
  a = CreateWriteStream tarPath \/ a = CreateWriteStream zipPath \/
  populates a = true.
Proof.
  unfold acquire_and_extract. intros H.
  apply In_bind in H. destruct H as [H|(? & _ & H)].
  { apply downloadToFile_trace in H. tauto. }
  apply In_bind in H. destruct H as [H|(? & _ & H)].
  { apply downloadToFile_trace in H. tauto. }
  repeat (apply In_bind in H; destruct H as [H|(? & _ & H)];
          [apply In_step in H; subst a; simpl; tauto|]).
  apply In_step in H. subst a. simpl. tauto.
Qed.


End TryBlock.

Section MainFacts.

Variable w : World.

Lemma make_temp_dir_resolved (prefix dir : string) :
  snd (make_temp_dir w prefix) = Resolved dir ->
  mkdtemp w prefix = Normal dir.
Proof.
  unfold make_temp_dir. simpl. destruct (mkdtemp w prefix); congruence.
Qed.



End MainFacts.

(** ** The claims about the resolver and [main] *)

(** C7 (as stated) fails on a response whose tag is the empty string: the
    tag is present in the response, and the operation fails with the
    not-found error instead of returning it. *)
Lemma fetchLatestTag_rejects_empty_tag :
  requestJson (URL_resolve SampleNet.untagged_world)
              (https_get SampleNet.untagged_world 0%nat)
              (JSON_parse_LatestRelease SampleNet.untagged_world)
              LATEST_RELEASE_URL 0
  = ([HttpGet LATEST_RELEASE_URL],
     Resolved {| tag_name := Some EmptyString |}) /\
  fetchLatestTag SampleNet.untagged_world
  = ([HttpGet LATEST_RELEASE_URL],
     Rejected (MkError "Latest release tag not found.")).
Proof. split; reflexivity. Qed.

(** C7 (amended): given the latest-release response, [fetchLatestTag]
    returns its tag when the tag is present and not the empty string, and
    fails with the not-found error exactly when the tag is absent or
    empty. *)
Theorem fetchLatestTag_result (w : World) (data : LatestRelease) :
  snd (requestJson (URL_resolve w) (https_get w 0%nat)
                   (JSON_parse_LatestRelease w) LATEST_RELEASE_URL 0)
  = Resolved data ->
  (forall tag,
      snd (fetchLatestTag w) = Resolved tag <->
      tag_name data = Some tag /\ tag <> EmptyString) /\
  (snd (fetchLatestTag w) = Rejected (MkError "Latest release tag not found.")
   <-> tag_name data = None \/ tag_name data = Some EmptyString).
Proof.
  intros Hdata. unfold fetchLatestTag, bind. rewrite Hdata.
  destruct (tag_name data) as [[|c t]|]; simpl; split.
  - intros tag. split; [discriminate|]. intros [[= <-] H]. now elim H.
  - split; [now right | reflexivity].
  - intros tag. split.
    + intros [= <-]. split; [reflexivity|discriminate].
    + now intros [[= <-] _].
  - split; [discriminate|]. intros [H|H]; discriminate.
  - intros tag. split; [discriminate|]. intros [H _]. discriminate.
  - split; [now left | reflexivity].
Qed.

Lemma fetchLatestTag_result_witness :
  (forall tag,
      snd (fetchLatestTag SampleNet.good_world) = Resolved tag <->
      Some "v1.0.0" = Some tag /\ tag <> EmptyString) /\
  (snd (fetchLatestTag SampleNet.good_world)
   = Rejected (MkError "Latest release tag not found.")
   <-> Some "v1.0.0" = None \/ Some "v1.0.0" = Some EmptyString).
Proof.
  apply (fetchLatestTag_result SampleNet.good_world
           {| tag_name := Some "v1.0.0" |}).
  reflexivity.
Defined.

(** A failed request fails the operation with the request's error. *)
Lemma fetchLatestTag_request_failed (w : World) (e : Error) :
  snd (requestJson (URL_resolve w) (https_get w 0%nat)
                   (JSON_parse_LatestRelease w) LATEST_RELEASE_URL 0)
  = Rejected e ->
  snd (fetchLatestTag w) = Rejected e.
Proof.
  intros H. unfold fetchLatestTag, bind. now rewrite H.
Qed.

Section MainTrace.

Variable w : World.

Lemma bind_resolved_eq {A B : Type} (m : Eff A) (k : A -> Eff B) (x : A) :
  snd m = Resolved x -> bind m k = (fst m ++ fst (k x), snd (k x)).
Proof. intros H. unfold bind. now rewrite H. Qed.








End MainTrace.



(** The run in which the binary download fails: the template archive is
    written inside the temporary directory, which is then removed; no
    directory of the project is created. *)
Example main_binary_download_fails :
  main SampleNet.failing_world
  = ([Stdout (String.append "Fetching latest template..." LF);
      HttpGet LATEST_RELEASE_URL;
      Stdout (String.append "Fetching latest binary release..." LF);
      HttpGet RELEASES_URL;
      Mkdtemp "/tmp/frame-script-";
      HttpGet "https://codeload.github.com/frame-script/FrameScript/tar.gz/v1.0.0";
      CreateWriteStream "/tmp/frame-script-aB3dEf/template.tgz";
      HttpGet "B";
      Rm "/tmp/frame-script-aB3dEf"],
     Rejected (MkError "Download failed with status 503")).
Proof. reflexivity. Qed.

(** The run in which everything succeeds. *)
Example main_succeeds :
  main SampleNet.good_world
  = ([Stdout (String.append "Fetching latest template..." LF);
      HttpGet LATEST_RELEASE_URL;
      Stdout (String.append "Fetching latest binary release..." LF);
      HttpGet RELEASES_URL;
      Mkdtemp "/tmp/frame-script-";
      HttpGet "https://codeload.github.com/frame-script/FrameScript/tar.gz/v1.0.0";
      CreateWriteStream "/tmp/frame-script-aB3dEf/template.tgz";
      HttpGet "B";
      CreateWriteStream "/tmp/frame-script-aB3dEf/bin.zip";
      Mkdir "/home/user/my-project";
      TarExtract "/tmp/frame-script-aB3dEf/template.tgz" "/home/user/my-project";
      Mkdir "/home/user/my-project/bin";
      UnzipExtract "/tmp/frame-script-aB3dEf/bin.zip" "/home/user/my-project/bin";
      MakeExecutablesUnder "/home/user/my-project/bin";
      Rm "/tmp/frame-script-aB3dEf";
      Stdout (String.append "Installing dependencies..." LF);
      NpmInstall "/home/user/my-project";
      Stdout (String.append "Created my-project/" LF)],
     Resolved tt).
Proof. reflexivity. Qed.

(** * Further properties of the selection *)

Section SelectionMore.

Variable parse : string -> JS.number.

Lemma fold_pick_filter (releases : list Release) (latest : option Selection) :
  fold_left (pick_step parse) releases latest
  = fold_left (pick_step parse) (filter candidate releases) latest.
Proof.
  revert latest. induction releases as [|r releases IH]; intros latest.
  - reflexivity.
  - simpl. destruct (candidate r) eqn:Hc.
    + simpl. apply IH.
    + rewrite (pick_step_skip parse latest r Hc). apply IH.
Qed.

(** Once a release is retained, some release stays retained. *)
Lemma fold_pick_some (releases : list Release) (l : Selection) :
  fold_left (pick_step parse) releases (Some l) <> None.
Proof.
  revert l. induction releases as [|r releases IH]; intros l.
  - discriminate.
  - simpl. destruct (candidate r) eqn:Hc.
    + destruct (pick_step_candidate parse (Some l) r Hc) as (url & _ & _ & ->).
      destruct (time_of parse r >? incumbent_time parse (release l));
        apply IH.
    + rewrite (pick_step_skip parse _ r Hc). apply IH.
Qed.

Lemma pick_none_iff (releases : list Release) :
  pickLatestReleaseWithBinZip parse releases = None <->
  forall r, In r releases -> candidate r = false.
Proof.
  unfold pickLatestReleaseWithBinZip. split.
  - induction releases as [|x releases IH]; intros H r Hin; [destruct Hin|].
    simpl in H. destruct (candidate x) eqn:Hx.
    + destruct (pick_step_candidate parse None x Hx) as (url & _ & _ & Heq).
      rewrite Heq in H. now apply fold_pick_some in H.
    + rewrite (pick_step_skip parse None x Hx) in H.
      destruct Hin as [<-|Hin]; [assumption|now apply IH].
  - intros H. rewrite fold_pick_filter.
    replace (filter candidate releases) with (@nil Release); [reflexivity|].
    symmetry. induction releases as [|x releases IH]; [reflexivity|].
    simpl. rewrite (H x (or_introl eq_refl)). apply IH.
    intros r Hin. apply H. now right.
Qed.

End SelectionMore.

(** X1: the selection returns nothing exactly when the listing has no
    candidate, that is, no non-draft release whose first matching asset
    has a non-empty download URL; the dates play no part in this. *)
Theorem pick_nothing_iff_no_candidate
        (parse : string -> JS.number) (releases : list Release) :
  pickLatestReleaseWithBinZip parse releases = None <->
  forall r, In r releases -> candidate r = false.
Proof. apply pick_none_iff. Qed.

(** X2: drafts and releases without a usable matching asset have no
    influence on the result: selecting from a listing is selecting from
    its candidates, in their order. *)
Theorem pick_depends_on_candidates_only
        (parse : string -> JS.number) (releases : list Release) :
  pickLatestReleaseWithBinZip parse releases
  = pickLatestReleaseWithBinZip parse (filter candidate releases).
Proof. apply fold_pick_filter. Qed.

(** X3: the order of the listing does not matter when its candidates
    are consistently dated and no two of them have the same time. *)
Theorem pick_order_independent
        (parse : string -> JS.number) (releases releases' : list Release) :
  Permutation releases releases' ->
  (forall r, In r releases -> candidate r = true ->
             consistently_dated parse r) ->
  (forall r r', In r releases -> In r' releases ->
                candidate r = true -> candidate r' = true ->
                time_of parse r = time_of parse r' -> r = r') ->
  pickLatestReleaseWithBinZip parse releases
  = pickLatestReleaseWithBinZip parse releases'.
Proof.
  intros Hperm Hdated Hdistinct.
  assert (Hdated' : forall r, In r releases' -> candidate r = true ->
                              consistently_dated parse r).
  { intros r Hin. apply Hdated.
    now apply (Permutation_in r (Permutation_sym Hperm)). }
  pose proof (pick_loop_state parse releases Hdated) as Hs.
  pose proof (pick_loop_state parse releases' Hdated') as Hs'.
  destruct (pickLatestReleaseWithBinZip parse releases) as [l|] eqn:Hl;
    destruct (pickLatestReleaseWithBinZip parse releases') as [l'|] eqn:Hl';
    simpl in Hs, Hs'.
  - destruct Hs as (Hurl & i & Hi & Hc & Hmax & _).
    destruct Hs' as (Hurl' & i' & Hi' & Hc' & Hmax' & _).
    assert (Hin : In (release l) releases) by now apply nth_error_In in Hi.
    assert (Hin' : In (release l') releases)
      by (apply (Permutation_in _ (Permutation_sym Hperm));
          now apply nth_error_In in Hi').
    assert (Hrel : release l = release l').
    { apply Hdistinct; try assumption.
      destruct (In_nth_error _ _ Hin') as [j Hj].
      destruct (In_nth_error _ _ (Permutation_in _ Hperm Hin)) as [j' Hj'].
      pose proof (Hmax j _ Hj Hc'). pose proof (Hmax' j' _ Hj' Hc). lia. }
    destruct l as [r u], l' as [r' u']. simpl in *. subst r'.
    f_equal. congruence.
  - exfalso. destruct Hs as (_ & i & Hi & Hc & _).
    apply nth_error_In in Hi. apply (Permutation_in _ Hperm) in Hi.
    rewrite (Hs' _ Hi) in Hc. discriminate.
  - exfalso. destruct Hs' as (_ & i & Hi & Hc & _).
    apply nth_error_In in Hi.
    apply (Permutation_in _ (Permutation_sym Hperm)) in Hi.
    rewrite (Hs _ Hi) in Hc. discriminate.
  - reflexivity.
Qed.

Lemma pick_order_independent_witness :
  pickLatestReleaseWithBinZip IsoDate.parse [Sample.v1; Sample.v2; Sample.v3]
  = pickLatestReleaseWithBinZip IsoDate.parse [Sample.v2; Sample.v1; Sample.v3].
Proof.
  apply (pick_order_independent IsoDate.parse).
  - apply perm_swap.
  - intros r [<-|[<-|[<-|[]]]] _; reflexivity.
  - intros r r' [<-|[<-|[<-|[]]]] [<-|[<-|[<-|[]]]] Hc Hc' Ht;
      first [reflexivity | discriminate Hc | discriminate Hc'
            | discriminate Ht].
Defined.

(** X4: the two computations of a release's time agree exactly when
    publishedAt is absent, or parses to a valid non-zero time, or
    createdAt does not parse to one ([Date.parse] being NaN or zero on
    the empty string). *)
Theorem timestamps_agree_iff
        (parse : string -> JS.number) (r : Release) :
  JS.truthy_number (parse EmptyString) = false ->
  (consistently_dated parse r <->
   published_at r = None
   \/ JS.truthy_number
        (parse (JS.nullish_default (published_at r) EmptyString)) = true
   \/ JS.truthy_number
        (parse (JS.nullish_default (created_at r) EmptyString)) = false).
Proof.
  intros Hempty. split; [|now apply consistently_dated_when].
  intros Hagree.
  destruct (published_at r) as [p|] eqn:Hp; [|now left].
  destruct (JS.truthy_number (parse p)) eqn:Htp; [right; left; exact Htp|].
  destruct (JS.truthy_number
              (parse (JS.nullish_default (created_at r) EmptyString)))
    eqn:Htc; [|now right; right].
  exfalso.
  assert (Hnz : forall n, JS.truthy_number n = true -> JS.or_zero n <> 0).
  { intros [|z]; simpl; [discriminate|].
    intros Hz Heq. subst z. discriminate. }
  assert (Hz : forall n, JS.truthy_number n = false -> JS.or_zero n = 0).
  { intros [|z]; simpl; [reflexivity|].
    intros H. apply negb_false_iff in H. now apply Z.eqb_eq in H. }
  apply (Hnz _ Htc).
  unfold consistently_dated, time_of, incumbent_time, latestTime_of,
    JS.or_number, JS.or_string in Hagree.
  simpl in Hagree. rewrite Hp in Hagree. simpl in Hagree.
  rewrite Htp in Hagree. rewrite Hagree.
  destruct p as [|c p']; simpl.
  - destruct (JS.truthy_string (created_at r)); [now apply Hz|reflexivity].
  - now apply Hz.
Qed.

Lemma timestamps_agree_iff_witness :
  consistently_dated IsoDate.parse Sample.misdated <->
  published_at Sample.misdated = None
  \/ JS.truthy_number
       (IsoDate.parse
          (JS.nullish_default (published_at Sample.misdated) EmptyString))
     = true
  \/ JS.truthy_number
       (IsoDate.parse
          (JS.nullish_default (created_at Sample.misdated) EmptyString))
     = false.
Proof.
  apply (timestamps_agree_iff IsoDate.parse Sample.misdated). reflexivity.
Defined.

(** X5: once the release listing is fetched, [fetchLatestBinaryZipUrl]
    fails with its not-found error exactly when the listing has no
    candidate; a URL it returns is never empty and is the download URL of
    an asset named bin.zip (in any case) of a non-draft release of the
    listing. *)
Theorem fetchLatestBinaryZipUrl_result (w : World) (releases : list Release) :
  snd (requestJson (URL_resolve w) (https_get w 1%nat)
                   (JSON_parse_Releases w) RELEASES_URL 0)
  = Resolved releases ->
  (snd (fetchLatestBinaryZipUrl w)
   = Rejected (MkError "Release with bin.zip not found.")
   <-> forall r, In r releases -> candidate r = false) /\
  (forall url,
      snd (fetchLatestBinaryZipUrl w) = Resolved url ->
      url <> EmptyString /\
      exists r entries asset,
        In r releases /\ JS.truthy_bool (draft r) = false /\
        assets r = Some entries /\ In asset entries /\
        is_bin_zip asset = true /\
        Asset.browser_download_url asset = Some url).
Proof.
  intros Hlist. unfold fetchLatestBinaryZipUrl, bind. rewrite Hlist.
  destruct (pickLatestReleaseWithBinZip (Date_parse w) releases) as [sel|]
    eqn:Hpick; simpl.
  - split.
    + split; [discriminate|]. intros Hnone.
      rewrite (proj2 (pick_none_iff (Date_parse w) releases) Hnone) in Hpick.
      discriminate.
    + intros url [= <-].
      destruct (pick_well_selected _ _ _ Hpick) as (Hin & Hc & Hurl).
      unfold candidate in Hc. apply andb_prop in Hc. destruct Hc as [Hd Ht].
      apply negb_true_iff in Hd. rewrite Hurl in Ht.
      split; [destruct (assetUrl sel); [discriminate Ht|discriminate]|].
      destruct (bin_zip_url_asset _ _ Hurl) as (entries & asset & H).
      exists (release sel), entries, asset. tauto.
  - split.
    + split; [|reflexivity]. intros _.
      exact (proj1 (pick_none_iff (Date_parse w) releases) Hpick).
    + discriminate.
Qed.

Lemma fetchLatestBinaryZipUrl_result_witness :
  (snd (fetchLatestBinaryZipUrl SampleNet.good_world)
   = Rejected (MkError "Release with bin.zip not found.")
   <-> forall r, In r Sample.listing -> candidate r = false) /\
  (forall url,
      snd (fetchLatestBinaryZipUrl SampleNet.good_world) = Resolved url ->
      url <> EmptyString /\
      exists r entries asset,
        In r Sample.listing /\ JS.truthy_bool (draft r) = false /\
        assets r = Some entries /\ In asset entries /\
        is_bin_zip asset = true /\
        Asset.browser_download_url asset = Some url).
Proof.
  apply (fetchLatestBinaryZipUrl_result SampleNet.good_world Sample.listing).
  reflexivity.
Defined.

(** * Further properties of the HTTP helpers *)

Section HttpMore.

Variable URL_resolve : string -> string -> completion string.
Variable https_get : nat -> string -> reply.
Context {T : Type}.
Variable JSON_parse : string -> completion T.
Variable pipeline_to_file : IncomingMessage -> string -> option Error.

Local Abbreviation requestJson' := (requestJson URL_resolve https_get JSON_parse).
Local Abbreviation downloadToFile' :=
  (downloadToFile URL_resolve https_get pipeline_to_file).
Local Abbreviation reaches' := (reaches URL_resolve https_get).
Local Abbreviation final' := (final URL_resolve https_get).

Lemma final_request_error (url : string) (redirects : nat) (err : Error) :
  https_get redirects url = RequestError err -> final' (url, redirects).
Proof. intros Hg s' Hred. inversion Hred; subst. congruence. Qed.

Lemma final_not_followed (url : string) (redirects : nat)
      (res : IncomingMessage) :
  https_get redirects url = Response res ->
  follows_redirect res redirects = false -> final' (url, redirects).
Proof. intros Hg Hf s' Hred. inversion Hred; subst. congruence. Qed.

Lemma final_unresolvable (url : string) (redirects : nat)
      (res : IncomingMessage) (e : Error) :
  https_get redirects url = Response res ->
  URL_resolve (JS.nullish_default (headers_location res) EmptyString) url
  = Thrown e ->
  final' (url, redirects).
Proof. intros Hg Hu s' Hred. inversion Hred; subst. congruence. Qed.

Lemma count_gets_cons_get (url : string) (trace : list action) :
  count_gets (HttpGet url :: trace) = S (count_gets trace).
Proof. reflexivity. Qed.

Lemma redirects_end (filePath url : string) (redirects : nat) :
  exists url' redirects',
    reaches' (url, redirects) (url', redirects') /\
    final' (url', redirects') /\
    count_gets (fst (requestJson' url redirects)) = S (redirects' - redirects) /\
    count_gets (fst (downloadToFile' url filePath redirects))
    = S (redirects' - redirects).
Proof.
  revert url redirects. apply (redirect_induction URL_resolve https_get). intros url redirects IH.
  rewrite requestJson_body, downloadToFile_body.
  destruct (https_get redirects url) as [res|err] eqn:Hg.
  - destruct (follows_redirect res redirects) eqn:Hf.
    + destruct (URL_resolve _ url) as [nextUrl|e] eqn:Hu.
      * destruct (IH res nextUrl eq_refl Hf Hu)
          as (url' & redirects' & Hr & Hfin & Hc1 & Hc2).
        exists url', redirects'.
        pose proof (reaches_bound _ _ _ _ Hr) as [Hle _]. simpl in Hle.
        split; [|split; [assumption|]].
        { eapply reaches_next; [|exact Hr].
          now apply (redirected_intro _ _ url nextUrl redirects res). }
        unfold after. cbn [fst]. rewrite !count_gets_cons_get, Hc1, Hc2.
        split; lia.
      * exists url, redirects. rewrite Nat.sub_diag.
        split; [apply reaches_here|].
        split; [now apply (final_unresolvable url redirects res e)|].
        split; reflexivity.
    + exists url, redirects. rewrite Nat.sub_diag.
      split; [apply reaches_here|].
      split; [now apply (final_not_followed url redirects res)|].
      split; [reflexivity|].
      destruct (is_failure_status (status_of res)); reflexivity.
  - exists url, redirects. rewrite Nat.sub_diag.
    split; [apply reaches_here|].
    split; [now apply (final_request_error url redirects err)|].
    split; reflexivity.
Qed.

Lemma same_requests (filePath url : string) (redirects : nat) :
  filter is_get (fst (downloadToFile' url filePath redirects))
  = fst (requestJson' url redirects).
Proof.
  revert url redirects. apply (redirect_induction URL_resolve https_get). intros url redirects IH.
  rewrite requestJson_body, downloadToFile_body.
  destruct (https_get redirects url) as [res|err] eqn:Hg; [|reflexivity].
  destruct (follows_redirect res redirects) eqn:Hf.
  - destruct (URL_resolve _ url) as [nextUrl|e] eqn:Hu; [|reflexivity].
    unfold after. cbn [fst filter is_get]. f_equal.
    now apply (IH res nextUrl).
  - destruct (is_failure_status (status_of res)); reflexivity.
Qed.

(** What the trace of a download contains, seen from a later request
    of the same operation. *)
Lemma downloadToFile_trace_along (filePath : string) (s s' : string * nat)
      (a : action) :
  reaches' s s' ->
  In a (fst (downloadToFile' (fst s') filePath (snd s'))) ->
  In a (fst (downloadToFile' (fst s) filePath (snd s))).
Proof.
  clear JSON_parse.
  induction 1 as [s|s s' s'' Hstep _ IH]; [tauto|].
  intros Hin. specialize (IH Hin).
  destruct Hstep as [url nextUrl redirects res Hg Hf Hu].
  cbn [fst snd] in IH |- *.
  rewrite (downloadToFile_body _ _ _ url), Hg, Hf, Hu. now right.
Qed.

Lemma file_opened_inv (filePath path url : string) (redirects : nat) :
  In (CreateWriteStream path)
     (fst (downloadToFile' url filePath redirects)) ->
  path = filePath /\
  exists url' redirects' res,
    reaches' (url, redirects) (url', redirects') /\
    https_get redirects' url' = Response res /\
    200 <= status_of res < 300 /\
    snd (downloadToFile' url filePath redirects)
    = match pipeline_to_file res filePath with
      | None => Resolved tt
      | Some err => Rejected err
      end.
Proof.
  revert url redirects.
  apply (redirect_induction URL_resolve https_get
           (fun url redirects =>
              In (CreateWriteStream path)
                 (fst (downloadToFile' url filePath redirects)) ->
              path = filePath /\
              exists url' redirects' res,
                reaches' (url, redirects) (url', redirects') /\
                https_get redirects' url' = Response res /\
                200 <= status_of res < 300 /\
                snd (downloadToFile' url filePath redirects)
                = match pipeline_to_file res filePath with
                  | None => Resolved tt
                  | Some err => Rejected err
                  end)).
  intros url redirects IH. rewrite downloadToFile_body.
  destruct (https_get redirects url) as [res|err] eqn:Hg.
  - destruct (follows_redirect res redirects) eqn:Hf.
    + destruct (URL_resolve _ url) as [nextUrl|e] eqn:Hu.
      * simpl. intros [H|H]; [discriminate|].
        destruct (IH res nextUrl eq_refl Hf Hu H)
          as (Hp & url' & redirects' & res' & Hr & Hg' & Hs & Hout).
        split; [assumption|]. exists url', redirects', res'.
        split; [|now repeat split].
        eapply reaches_next; [|exact Hr].
        now apply (redirected_intro _ _ url nextUrl redirects res).
      * simpl. intros [H|[]]. discriminate.
    + destruct (is_failure_status (status_of res)) eqn:Hs; simpl.
      * intros [H|[]]. discriminate.
      * intros [H|[H|[]]]; [discriminate|]. injection H as <-.
        split; [reflexivity|]. exists url, redirects, res.
        split; [apply reaches_here|]. split; [assumption|].
        split; [now apply is_failure_status_spec|reflexivity].
  - simpl. intros [H|[]]. discriminate.
Qed.

End HttpMore.

(** X6: every call of either helper ends at a final request, reached
    through followed redirects, and has then issued exactly one request
    more than the redirects it followed. *)
Theorem redirects_end_at_a_final_request
        (URL_resolve : string -> string -> completion string)
        (https_get : nat -> string -> reply)
        (T : Type) (JSON_parse : string -> completion T)
        (pipeline_to_file : IncomingMessage -> string -> option Error)
        (url filePath : string) (redirects : nat) :
  exists url' redirects',
    reaches URL_resolve https_get (url, redirects) (url', redirects') /\
    final URL_resolve https_get (url', redirects') /\
    count_gets (fst (requestJson URL_resolve https_get JSON_parse
                                 url redirects))
    = S (redirects' - redirects) /\
    count_gets (fst (downloadToFile URL_resolve https_get pipeline_to_file
                                    url filePath redirects))
    = S (redirects' - redirects).
Proof. apply redirects_end. Qed.

(** X7: both helpers follow redirects to the same addresses: given the
    same replies, the addresses [downloadToFile] requests are, in the
    same order, those [requestJson] requests from the same address and
    count.  (The headers the two send differ; the trace records the
    address of a request only.) *)
Theorem helpers_request_the_same_addresses
        (URL_resolve : string -> string -> completion string)
        (https_get : nat -> string -> reply)
        (T : Type) (JSON_parse : string -> completion T)
        (pipeline_to_file : IncomingMessage -> string -> option Error)
        (url filePath : string) (redirects : nat) :
  filter is_get (fst (downloadToFile URL_resolve https_get pipeline_to_file
                                     url filePath redirects))
  = fst (requestJson URL_resolve https_get JSON_parse url redirects).
Proof. apply same_requests. Qed.

(** X8: [downloadToFile] opens no file but its destination, and opens
    it only once a response with a status in 200-299 has been reached;
    its outcome is then the outcome of streaming that response into the
    file. *)
Theorem file_opened_only_on_success
        (URL_resolve : string -> string -> completion string)
        (https_get : nat -> string -> reply)
        (pipeline_to_file : IncomingMessage -> string -> option Error)
        (url filePath path : string) (redirects : nat) :
  In (CreateWriteStream path)
     (fst (downloadToFile URL_resolve https_get pipeline_to_file
                          url filePath redirects)) ->
  path = filePath /\
  exists url' redirects' res,
    reaches URL_resolve https_get (url, redirects) (url', redirects') /\
    https_get redirects' url' = Response res /\
    200 <= status_of res < 300 /\
    snd (downloadToFile URL_resolve https_get pipeline_to_file
                        url filePath redirects)
    = match pipeline_to_file res filePath with
      | None => Resolved tt
      | Some err => Rejected err
      end.
Proof. apply file_opened_inv. Qed.

Lemma file_opened_only_on_success_witness :
  "/tmp/x/bin.zip" = "/tmp/x/bin.zip" /\
  exists url' redirects' res,
    reaches SampleNet.absolute
            (SampleNet.one_redirect (SampleNet.answer 200 ["bytes"]))
            ("https://example.com/start", 0%nat) (url', redirects') /\
    SampleNet.one_redirect (SampleNet.answer 200 ["bytes"]) redirects' url'
    = Response res /\
    200 <= status_of res < 300 /\
    snd (downloadToFile SampleNet.absolute
           (SampleNet.one_redirect (SampleNet.answer 200 ["bytes"]))
           (fun _ _ => Some (MkError "ENOSPC"))
           "https://example.com/start" "/tmp/x/bin.zip" 0)
    = match (fun _ _ => Some (MkError "ENOSPC")) res "/tmp/x/bin.zip" with
      | None => Resolved tt
      | Some err => Rejected err
      end.
Proof.
  apply (file_opened_only_on_success
           SampleNet.absolute
           (SampleNet.one_redirect (SampleNet.answer 200 ["bytes"]))
           (fun _ _ => Some (MkError "ENOSPC"))
           "https://example.com/start" "/tmp/x/bin.zip" "/tmp/x/bin.zip" 0).
  vm_compute. right. right. left. reflexivity.
Defined.

(** X9: when the response a download ends on has a status in 200-299,
    the destination file is opened and the download resolves or rejects
    as the streaming of the body into the file does. *)
Theorem success_streams_to_file
        (URL_resolve : string -> string -> completion string)
        (https_get : nat -> string -> reply)
        (pipeline_to_file : IncomingMessage -> string -> option Error)
        (url filePath : string) (redirects : nat)
        (url' : string) (redirects' : nat) (res : IncomingMessage) :
  reaches URL_resolve https_get (url, redirects) (url', redirects') ->
  https_get redirects' url' = Response res ->
  200 <= status_of res < 300 ->
  In (CreateWriteStream filePath)
     (fst (downloadToFile URL_resolve https_get pipeline_to_file
                          url filePath redirects)) /\
  snd (downloadToFile URL_resolve https_get pipeline_to_file
                      url filePath redirects)
  = match pipeline_to_file res filePath with
    | None => Resolved tt
    | Some err => Rejected err
    end.
Proof.
  intros Hreach Hg Hs.
  assert (Hend : downloadToFile URL_resolve https_get pipeline_to_file
                                url' filePath redirects'
                 = ([HttpGet url'; CreateWriteStream filePath],
                    match pipeline_to_file res filePath with
                    | None => Resolved tt
                    | Some err => Rejected err
                    end)).
  { rewrite downloadToFile_body, Hg, (success_not_redirect res redirects' Hs).
    apply is_failure_status_spec in Hs. now rewrite Hs. }
  split.
  - apply (downloadToFile_trace_along _ _ pipeline_to_file filePath
             (url, redirects) (url', redirects') _ Hreach).
    simpl. rewrite Hend. simpl. tauto.
  - rewrite (downloadToFile_along _ _ pipeline_to_file filePath _ _ _ _ Hreach).
    now rewrite Hend.
Qed.

Lemma success_streams_to_file_witness :
  In (CreateWriteStream "/tmp/x/bin.zip")
     (fst (downloadToFile SampleNet.absolute
             (SampleNet.one_redirect (SampleNet.answer 200 ["bytes"]))
             (fun _ _ => None)
             "https://example.com/start" "/tmp/x/bin.zip" 0)) /\
  snd (downloadToFile SampleNet.absolute
         (SampleNet.one_redirect (SampleNet.answer 200 ["bytes"]))
         (fun _ _ => None)
         "https://example.com/start" "/tmp/x/bin.zip" 0)
  = match (fun _ _ => @None Error) (SampleNet.answer 200 ["bytes"])
          "/tmp/x/bin.zip" with
    | None => Resolved tt
    | Some err => Rejected err
    end.
Proof.
  apply (success_streams_to_file
           SampleNet.absolute
           (SampleNet.one_redirect (SampleNet.answer 200 ["bytes"]))
           (fun _ _ => None)
           "https://example.com/start" "/tmp/x/bin.zip" 0%nat
           "https://example.com/final" 1%nat
           (SampleNet.answer 200 ["bytes"])).
  - eapply reaches_next; [|apply reaches_here].
    apply (redirected_intro _ _ "https://example.com/start"
             "https://example.com/final" 0%nat
             (SampleNet.redirect_to "https://example.com/final"));
      reflexivity.
  - reflexivity.
  - unfold status_of. simpl. lia.
Defined.

(** X10: a request that fails, at the first address or after redirects,
    rejects either helper with the error of the request; a redirect
    whose location cannot be resolved ends either helper with that
    exception uncaught, its promise never being settled. *)
Theorem failed_request_ends_the_operation
        (URL_resolve : string -> string -> completion string)
        (https_get : nat -> string -> reply)
        (T : Type) (JSON_parse : string -> completion T)
        (pipeline_to_file : IncomingMessage -> string -> option Error)
        (url filePath : string) (redirects : nat)
        (url' : string) (redirects' : nat) :
  reaches URL_resolve https_get (url, redirects) (url', redirects') ->
  (forall err,
      https_get redirects' url' = RequestError err ->
      requestJson URL_resolve https_get JSON_parse url' redirects'
      = ([HttpGet url'], Rejected err) /\
      snd (requestJson URL_resolve https_get JSON_parse url redirects)
      = Rejected err /\
      snd (downloadToFile URL_resolve https_get pipeline_to_file
                          url filePath redirects)
      = Rejected err) /\
  (forall res e,
      https_get redirects' url' = Response res ->
      follows_redirect res redirects' = true ->
      URL_resolve (JS.nullish_default (headers_location res) EmptyString) url'
      = Thrown e ->
      snd (requestJson URL_resolve https_get JSON_parse url redirects)
      = Uncaught e /\
      snd (downloadToFile URL_resolve https_get pipeline_to_file
                          url filePath redirects)
      = Uncaught e).
Proof.
  intros Hreach.
  rewrite (requestJson_along _ _ JSON_parse _ _ _ _ Hreach).
  rewrite (downloadToFile_along _ _ pipeline_to_file filePath _ _ _ _ Hreach).
  split.
  - intros err Hg.
    rewrite requestJson_body, downloadToFile_body, Hg. now repeat split.
  - intros res e Hg Hf Hu.
    rewrite requestJson_body, downloadToFile_body, Hg, Hf, Hu. now split.
Qed.

Lemma failed_request_ends_the_operation_witness :
  snd (requestJson SampleNet.absolute
         (fun redirects _ =>
            match redirects with
            | O => Response (SampleNet.redirect_to "https://example.com/final")
            | S _ => RequestError (MkError "ECONNRESET")
            end)
         SampleNet.parse_latest "https://example.com/start" 0)
  = Rejected (MkError "ECONNRESET") /\
  snd (downloadToFile SampleNet.absolute
         (fun redirects _ =>
            match redirects with
            | O => Response (SampleNet.redirect_to "https://example.com/final")
            | S _ => RequestError (MkError "ECONNRESET")
            end)
         (fun _ _ => None) "https://example.com/start" "/tmp/x/bin.zip" 0)
  = Rejected (MkError "ECONNRESET").
Proof.
  refine (proj2 (proj1 (failed_request_ends_the_operation
            SampleNet.absolute
            (fun redirects _ =>
               match redirects with
               | O => Response (SampleNet.redirect_to
                                   "https://example.com/final")
               | S _ => RequestError (MkError "ECONNRESET")
               end)
            LatestRelease SampleNet.parse_latest (fun _ _ => None)
            "https://example.com/start" "/tmp/x/bin.zip" 0%nat
            "https://example.com/final" 1%nat _)
          (MkError "ECONNRESET") eq_refl)).
  eapply reaches_next; [|apply reaches_here].
  apply (redirected_intro _ _ "https://example.com/start"
           "https://example.com/final" 0%nat
           (SampleNet.redirect_to "https://example.com/final"));
    reflexivity.
Defined.

(** * Further properties of [main] and of the program *)

Section Outcomes.

Lemma bind_exited {A B : Type} (m : Eff A) (k : A -> Eff B) (c : Z) :
  snd (bind m k) = Exited c ->
  snd m = Exited c \/ exists x, snd m = Resolved x /\ snd (k x) = Exited c.
Proof.
  unfold bind. destruct (snd m) as [x|e|e|c']; simpl; try discriminate.
  - intros H. right. exists x. split; [reflexivity|exact H].
  - intros H. left. injection H as ->. reflexivity.
Qed.

Lemma bind_stops {A B : Type} (m : Eff A) (k : A -> Eff B) :
  (forall x, snd m <> Resolved x) ->
  fst (bind m k) = fst m /\
  (forall e, snd m = Rejected e -> snd (bind m k) = Rejected e) /\
  (forall e, snd m = Uncaught e -> snd (bind m k) = Uncaught e) /\
  (forall c, snd m = Exited c -> snd (bind m k) = Exited c).
Proof.
  unfold bind. intros H. destruct (snd m) as [x|e|e|c] eqn:Hm; simpl.
  - now elim (H x).
  - repeat split; congruence.
  - repeat split; congruence.
  - repeat split; congruence.
Qed.

Lemma In_bind_left {A B : Type} (m : Eff A) (k : A -> Eff B) (a : action) :
  In a (fst m) -> In a (fst (bind m k)).
Proof.
  unfold bind. destruct (snd m); simpl; try tauto.
  intros H. apply in_or_app. now left.
Qed.

Lemma requestJson_never_exits {T : Type}
      (resolve : string -> string -> completion string)
      (get : nat -> string -> reply) (parse : string -> completion T)
      (url : string) (redirects : nat) (c : Z) :
  snd (requestJson resolve get parse url redirects) <> Exited c.
Proof.
  revert url redirects.
  apply (redirect_induction resolve get
           (fun url redirects =>
              snd (requestJson resolve get parse url redirects) <> Exited c)).
  intros url redirects IH. rewrite requestJson_body.
  destruct (get redirects url) as [res|err]; [|discriminate].
  destruct (follows_redirect res redirects) eqn:Hf.
  - destruct (resolve _ url) as [nextUrl|e] eqn:Hu; [|discriminate].
    simpl. now apply (IH res nextUrl).
  - simpl. destruct (is_failure_status (status_of res)); [discriminate|].
    destruct (parse _); discriminate.
Qed.

Lemma downloadToFile_never_exits
      (resolve : string -> string -> completion string)
      (get : nat -> string -> reply)
      (pipe : IncomingMessage -> string -> option Error)
      (url filePath : string) (redirects : nat) (c : Z) :
  snd (downloadToFile resolve get pipe url filePath redirects) <> Exited c.
Proof.
  revert url redirects.
  apply (redirect_induction resolve get
           (fun url redirects =>
              snd (downloadToFile resolve get pipe url filePath redirects)
              <> Exited c)).
  intros url redirects IH. rewrite downloadToFile_body.
  destruct (get redirects url) as [res|err]; [|discriminate].
  destruct (follows_redirect res redirects) eqn:Hf.
  - destruct (resolve _ url) as [nextUrl|e] eqn:Hu; [|discriminate].
    simpl. now apply (IH res nextUrl).
  - destruct (is_failure_status (status_of res)); [discriminate|].
    simpl. destruct (pipe res filePath); discriminate.
Qed.

Lemma step_never_exits (a : action) (failure : option Error) (c : Z) :
  snd (step a failure) <> Exited c.
Proof. destruct failure; discriminate. Qed.

Variable w : World.

Lemma fetchLatestTag_never_exits (c : Z) :
  snd (fetchLatestTag w) <> Exited c.
Proof.
  unfold fetchLatestTag. intros H. apply bind_exited in H.
  destruct H as [H|(data & _ & H)].
  - now apply requestJson_never_exits in H.
  - destruct (tag_name data) as [[|ch t]|]; discriminate.
Qed.

Lemma fetchLatestBinaryZipUrl_never_exits (c : Z) :
  snd (fetchLatestBinaryZipUrl w) <> Exited c.
Proof.
  unfold fetchLatestBinaryZipUrl. intros H. apply bind_exited in H.
  destruct H as [H|(releases & _ & H)].
  - now apply requestJson_never_exits in H.
  - destruct (pickLatestReleaseWithBinZip _ releases); discriminate.
Qed.

Lemma try_block_never_exits
      (tarballUrl binaryZipUrl tarPath zipPath targetDir : string) (c : Z) :
  snd (acquire_and_extract w tarballUrl binaryZipUrl tarPath zipPath targetDir)
  <> Exited c.
Proof.
  unfold acquire_and_extract. intros H.
  apply bind_exited in H. destruct H as [H|(? & _ & H)];
    [now apply downloadToFile_never_exits in H|].
  apply bind_exited in H. destruct H as [H|(? & _ & H)];
    [now apply downloadToFile_never_exits in H|].
  repeat (apply bind_exited in H; destruct H as [H|(? & _ & H)];
          [now apply step_never_exits in H|]).
  now apply step_never_exits in H.
Qed.

Lemma scaffold_never_exits (rawName targetDir : string) (c : Z) :
  snd (scaffold w rawName targetDir) <> Exited c.
Proof.
  unfold scaffold. intros H.
  apply bind_exited in H. destruct H as [H|(? & _ & H)]; [discriminate|].
  apply bind_exited in H. destruct H as [H|(? & _ & H)];
    [now apply fetchLatestTag_never_exits in H|].
  apply bind_exited in H. destruct H as [H|(? & _ & H)]; [discriminate|].
  apply bind_exited in H. destruct H as [H|(? & _ & H)];
    [now apply fetchLatestBinaryZipUrl_never_exits in H|].
  apply bind_exited in H. destruct H as [H|(tmpDir & _ & H)].
  { unfold make_temp_dir in H. simpl in H.
    destruct (mkdtemp w _); discriminate. }
  apply bind_exited in H. destruct H as [H|(? & _ & H)].
  { unfold try_finally in H.
    destruct (snd (acquire_and_extract w _ _ _ _ _)) eqn:Hb; simpl in H.
    - destruct (rm w tmpDir); discriminate.
    - destruct (rm w tmpDir); discriminate.
    - discriminate.
    - now apply try_block_never_exits in Hb. }
  apply bind_exited in H. destruct H as [H|(? & _ & H)]; [discriminate|].
  apply bind_exited in H. destruct H as [H|(? & _ & H)];
    [now apply step_never_exits in H|].
  discriminate.
Qed.

(** How [main] begins: it stops with messages only, or it goes on with
    the scaffolding for a name that is not empty and a target that does
    not exist. *)
Lemma main_cases :
  ((forall a, In a (fst (main w)) -> is_message a = true) /\
   (snd (main w) = Exited 1 /\
    (exists rawName,
        named w rawName /\
        (rawName = EmptyString
         \/ existsSync w (path_resolve_cwd w rawName) = true))
    \/ exists e, snd (main w) = Rejected e /\ prompt_answer w = Thrown e))
  \/
  exists rawName before,
    named w rawName /\ rawName <> EmptyString /\
    existsSync w (path_resolve_cwd w rawName) = false /\
    (forall a, In a before -> is_message a = true) /\
    fst (main w)
    = before ++ fst (scaffold w rawName (path_resolve_cwd w rawName)) /\
    snd (main w) = snd (scaffold w rawName (path_resolve_cwd w rawName)).
Proof.
  unfold main, named, bind, promptProjectName.
  destruct (nth_error (args w) 0) as [a|] eqn:Hargs.
  - simpl. destruct a as [|ch rest].
    + left. simpl. split; [intros a [<-|[]]; reflexivity|].
      left. split; [reflexivity|]. exists EmptyString. tauto.
    + destruct (existsSync w _) eqn:Hex.
      * left. simpl. split; [intros a [<-|[]]; reflexivity|].
        left. split; [reflexivity|]. exists (String ch rest). tauto.
      * right. exists (String ch rest), []. simpl.
        repeat split; try tauto; try discriminate.
  - simpl. destruct (prompt_answer w) as [answer|e] eqn:Hans.
    + destruct answer as [|ch rest].
      * left. simpl. split; [intros a [<-|[<-|[]]]; reflexivity|].
        left. split; [reflexivity|]. exists EmptyString. tauto.
      * destruct (existsSync w _) eqn:Hex.
        -- left. simpl. split; [intros a [<-|[<-|[]]]; reflexivity|].
           left. split; [reflexivity|]. exists (String ch rest). tauto.
        -- right. exists (String ch rest), [Stdout "Project name: "].
           simpl. repeat split; try tauto; try discriminate.
           intros a [<-|[]]. reflexivity.
    + left. simpl. split; [intros a [<-|[]]; reflexivity|].
      right. exists e. tauto.
Qed.

End Outcomes.

(** X11: [main] exits by itself only with status 1, and exactly when the
    project name is empty or the target directory already exists; only
    messages have been written by then: no request, no directory, no
    file. *)
Theorem main_exits_before_any_request (w : World) (c : Z) :
  (snd (main w) = Exited c <->
   c = 1 /\
   exists rawName,
     named w rawName /\
     (rawName = EmptyString
      \/ existsSync w (path_resolve_cwd w rawName) = true)) /\
  (snd (main w) = Exited c ->
   forall a, In a (fst (main w)) -> is_message a = true).
Proof.
  split; [split|].
  - intros Hexit.
    destruct (main_cases w)
      as [[_ [[H1 Hname]|(e & He & _)]]|(rawName & before & _ & _ & _ & _ & _ & Hs)].
    + split; [congruence|exact Hname].
    + congruence.
    + rewrite Hs in Hexit. now apply scaffold_never_exits in Hexit.
  - intros [-> (rawName & Hnamed & Hbad)].
    unfold main, bind, promptProjectName.
    destruct Hnamed as [Hargs|[Hargs Hans]].
    + rewrite Hargs. simpl. destruct Hbad as [->|Hex]; [reflexivity|].
      destruct rawName; [reflexivity|]. now rewrite Hex.
    + rewrite Hargs. simpl. rewrite Hans.
      destruct Hbad as [->|Hex]; [reflexivity|].
      destruct rawName; [reflexivity|]. now rewrite Hex.
  - intros Hexit.
    destruct (main_cases w)
      as [[Hmsg _]|(rawName & before & _ & _ & _ & _ & _ & Hs)].
    + exact Hmsg.
    + rewrite Hs in Hexit. now apply scaffold_never_exits in Hexit.
Qed.

Section Scaffold.

Variable w : World.

Local Abbreviation guarded tag url tmpDir targetDir :=
  (try_finally
     (acquire_and_extract w (tarball_url tag) url
                          (path_join w tmpDir "template.tgz")
                          (path_join w tmpDir "bin.zip") targetDir)
     (step (Rm tmpDir) (rm w tmpDir))).

Local Abbreviation install rawName targetDir :=
  (bind (perform (Stdout (String.append "Installing dependencies..." LF)))
        (fun _ =>
           bind (step (NpmInstall targetDir) (runNpmInstall w targetDir))
                (fun _ =>
                   perform
                     (Stdout (String.append "Created "
                                (String.append rawName
                                               (String.append "/" LF))))))).

Lemma preamble_actions (a : action) :
  In a (preamble w) ->
  is_message a = true \/ (exists u, a = HttpGet u)
  \/ a = Mkdtemp (temp_prefix w).
Proof.
  unfold preamble. rewrite !in_app_iff. simpl.
  intros [[<-|[]]|[H|[[<-|[]]|[H|[<-|[]]]]]]; try tauto.
  - apply fetchLatestTag_trace in H. tauto.
  - apply fetchLatestBinaryZipUrl_trace in H. tauto.
Qed.

Lemma scaffold_prepared (rawName targetDir tag url tmpDir : string) :
  prepared w tag url tmpDir ->
  scaffold w rawName targetDir
  = (preamble w
     ++ fst (bind (guarded tag url tmpDir targetDir)
                  (fun _ => install rawName targetDir)),
     snd (bind (guarded tag url tmpDir targetDir)
               (fun _ => install rawName targetDir))).
Proof.
  intros (Htag & Hurl & Htmp).
  assert (Htemp : snd (make_temp_dir w (temp_prefix w)) = Resolved tmpDir).
  { unfold make_temp_dir. simpl. now rewrite Htmp. }
  unfold scaffold.
  rewrite (bind_resolved_eq (perform _) _ tt) by reflexivity.
  rewrite (bind_resolved_eq (fetchLatestTag w) _ tag) by assumption.
  rewrite (bind_resolved_eq (perform _) _ tt) by reflexivity.
  rewrite (bind_resolved_eq (fetchLatestBinaryZipUrl w) _ url) by assumption.
  rewrite (bind_resolved_eq (make_temp_dir w _) _ tmpDir) by assumption.
  cbn [fst snd]. unfold preamble.
  repeat rewrite <- app_assoc. reflexivity.
Qed.

Lemma scaffold_mkdtemp_inv (rawName targetDir prefix : string) :
  In (Mkdtemp prefix) (fst (scaffold w rawName targetDir)) ->
  exists tag url,
    snd (fetchLatestTag w) = Resolved tag /\
    snd (fetchLatestBinaryZipUrl w) = Resolved url.
Proof.
  unfold scaffold. intros H.
  apply In_bind in H. destruct H as [H|(? & _ & H)].
  { apply In_perform in H. discriminate. }
  apply In_bind in H. destruct H as [H|(tag & Htag & H)].
  { apply fetchLatestTag_trace in H. destruct H as [u H]. discriminate. }
  apply In_bind in H. destruct H as [H|(? & _ & H)].
  { apply In_perform in H. discriminate. }
  apply In_bind in H. destruct H as [H|(url & Hurl & H)].
  { apply fetchLatestBinaryZipUrl_trace in H. destruct H as [u H].
    discriminate. }
  now exists tag, url.
Qed.

Lemma guarded_cases (tag url tmpDir targetDir : string) :
  (In (Rm tmpDir) (fst (guarded tag url tmpDir targetDir)))
  \/ exists e,
       guarded tag url tmpDir targetDir
       = (fst (acquire_and_extract w (tarball_url tag) url
                                   (path_join w tmpDir "template.tgz")
                                   (path_join w tmpDir "bin.zip") targetDir),
          Uncaught e).
Proof.
  unfold try_finally.
  destruct (snd (acquire_and_extract w _ _ _ _ _)) as [x|e|e|c] eqn:Hb;
    cbn [fst snd].
  - left. apply in_or_app. right. now left.
  - left. apply in_or_app. right. now left.
  - right. now exists e.
  - now apply try_block_never_exits in Hb.
Qed.

End Scaffold.

(** X12: the temporary directory is always cleaned up after use: once
    it has been created, a run of [main] that ends with its promise
    settled, fulfilled or rejected, has called [rm] on it. *)
Theorem temp_dir_removed_after_use (w : World) (tmpDir : string) :
  In (Mkdtemp (temp_prefix w)) (fst (main w)) ->
  mkdtemp w (temp_prefix w) = Normal tmpDir ->
  (snd (main w) = Resolved tt \/ exists e, snd (main w) = Rejected e) ->
  In (Rm tmpDir) (fst (main w)).
Proof.
  intros Hmk Htmp Hsettled.
  destruct (main_cases w)
    as [[Hmsg _]|(rawName & before & _ & _ & _ & Hbefore & Ht & Hs)].
  { apply Hmsg in Hmk. discriminate. }
  rewrite Ht in Hmk |- *. apply in_app_or in Hmk.
  destruct Hmk as [Hmk|Hmk]; [apply Hbefore in Hmk; discriminate|].
  destruct (scaffold_mkdtemp_inv w _ _ _ Hmk) as (tag & url & Htag & Hurl).
  assert (Hprep : prepared w tag url tmpDir) by now repeat split.
  rewrite Hs in Hsettled.
  rewrite (scaffold_prepared w rawName _ tag url tmpDir Hprep) in Hsettled |- *.
  cbn [fst snd] in Hsettled |- *.
  apply in_or_app. right. apply in_or_app. right.
  destruct (guarded_cases w tag url tmpDir (path_resolve_cwd w rawName))
    as [Hrm|[e Hcrash]].
  - now apply In_bind_left.
  - exfalso. rewrite Hcrash in Hsettled. unfold bind in Hsettled.
    cbn [fst snd] in Hsettled.
    destruct Hsettled as [H|[e' H]]; discriminate.
Qed.

Lemma temp_dir_removed_after_use_witness :
  In (Rm "/tmp/frame-script-aB3dEf") (fst (main SampleNet.failing_world)).
Proof.
  apply (temp_dir_removed_after_use SampleNet.failing_world
           "/tmp/frame-script-aB3dEf").
  - vm_compute. tauto.
  - reflexivity.
  - right. exists (MkError "Download failed with status 503"). reflexivity.
Defined.

Section TryBlockMore.

Variable w : World.
Variables tarballUrl binaryZipUrl tarPath zipPath targetDir : string.

Local Abbreviation download_template :=
  (downloadToFile (URL_resolve w) (https_get w 2%nat) (pipeline_to_file w)
                  tarballUrl tarPath 0).
Local Abbreviation download_binary :=
  (downloadToFile (URL_resolve w) (https_get w 3%nat) (pipeline_to_file w)
                  binaryZipUrl zipPath 0).
Local Abbreviation try_block :=
  (acquire_and_extract w tarballUrl binaryZipUrl tarPath zipPath targetDir).

(** The [try] block is the two downloads followed by the extraction. *)
Lemma try_block_eq :
  try_block
  = bind download_template (fun _ =>
    bind download_binary (fun _ =>
    extract_archives w tarPath zipPath targetDir)).
Proof. reflexivity. Qed.

Lemma try_block_uncaught (e : Error) :
  snd download_template = Uncaught e \/
  (snd download_template = Resolved tt /\ snd download_binary = Uncaught e) ->
  snd try_block = Uncaught e.
Proof.
  unfold acquire_and_extract, bind.
  intros [H|[H1 H2]].
  - now rewrite H.
  - rewrite H1. simpl. now rewrite H2.
Qed.

(** The extraction succeeds only when each of its five operations
    does, and has then performed them in their order. *)
Lemma extract_archives_resolved (x : unit) :
  snd (extract_archives w tarPath zipPath targetDir) = Resolved x ->
  fst (extract_archives w tarPath zipPath targetDir)
  = [Mkdir targetDir;
     TarExtract tarPath targetDir;
     Mkdir (path_join w targetDir "bin");
     UnzipExtract zipPath (path_join w targetDir "bin");
     MakeExecutablesUnder (path_join w targetDir "bin")].
Proof.
  unfold extract_archives, bind, step. cbn [fst snd].
  destruct (mkdir w targetDir); cbn [fst snd]; [discriminate|].
  destruct (tar_x w tarPath targetDir); cbn [fst snd]; [discriminate|].
  destruct (mkdir w (path_join w targetDir "bin")); cbn [fst snd];
    [discriminate|].
  destruct (unzip_to w zipPath (path_join w targetDir "bin")); cbn [fst snd];
    [discriminate|].
  destruct (makeExecutablesUnder w (path_join w targetDir "bin"));
    cbn [fst snd]; [discriminate|].
  reflexivity.
Qed.

Lemma try_block_resolved_trace (x : unit) :
  snd try_block = Resolved x ->
  snd download_template = Resolved tt /\
  snd download_binary = Resolved tt /\
  fst try_block
  = fst download_template ++ fst download_binary
    ++ [Mkdir targetDir;
        TarExtract tarPath targetDir;
        Mkdir (path_join w targetDir "bin");
        UnzipExtract zipPath (path_join w targetDir "bin");
        MakeExecutablesUnder (path_join w targetDir "bin")].
Proof.
  rewrite try_block_eq. intros H.
  apply bind_resolved in H. destruct H as ([] & H1 & H).
  apply bind_resolved in H. destruct H as ([] & H2 & H).
  split; [assumption|]. split; [assumption|].
  rewrite (bind_resolved_eq _ _ tt H1). cbn [fst].
  rewrite (bind_resolved_eq _ _ tt H2). cbn [fst].
  now rewrite (extract_archives_resolved _ H).
Qed.

End TryBlockMore.

(** [main] for a name that is not empty and a target that does not
    exist: after the prompt, if there was one, it is the scaffolding. *)
Lemma main_named (w : World) (rawName : string) :
  named w rawName ->
  rawName <> EmptyString ->
  existsSync w (path_resolve_cwd w rawName) = false ->
  exists before,
    (forall a, In a before -> is_message a = true) /\
    fst (main w)
    = before ++ fst (scaffold w rawName (path_resolve_cwd w rawName)) /\
    snd (main w) = snd (scaffold w rawName (path_resolve_cwd w rawName)).
Proof.
  intros Hnamed Hname Hnew. unfold main, bind, promptProjectName.
  destruct rawName as [|ch rest]; [now elim Hname|].
  destruct Hnamed as [Hargs|[Hargs Hans]]; rewrite Hargs.
  - exists []. simpl. rewrite Hnew. repeat split. intros a [].
  - exists [Stdout "Project name: "]. simpl. rewrite Hans. simpl.
    rewrite Hnew. repeat split. intros a [<-|[]]. reflexivity.
Qed.

(** X13: a redirect whose location cannot be resolved during a download
    ends [main] with that exception uncaught, whether the project name
    came from the command line or from the prompt: the [finally] clause
    does not run, so the temporary directory is left behind; nothing of
    the project has been created. *)
Theorem unresolvable_redirect_skips_cleanup
        (w : World) (rawName tag url tmpDir : string) (e : Error) :
  named w rawName ->
  rawName <> EmptyString ->
  existsSync w (path_resolve_cwd w rawName) = false ->
  prepared w tag url tmpDir ->
  snd (downloadToFile (URL_resolve w) (https_get w 2%nat)
                      (pipeline_to_file w) (tarball_url tag)
                      (path_join w tmpDir "template.tgz") 0)
  = Uncaught e
  \/ (snd (downloadToFile (URL_resolve w) (https_get w 2%nat)
                          (pipeline_to_file w) (tarball_url tag)
                          (path_join w tmpDir "template.tgz") 0)
      = Resolved tt /\
      snd (downloadToFile (URL_resolve w) (https_get w 3%nat)
                          (pipeline_to_file w) url
                          (path_join w tmpDir "bin.zip") 0)
      = Uncaught e) ->
  snd (main w) = Uncaught e /\
  In (Mkdtemp (temp_prefix w)) (fst (main w)) /\
  (forall a, In a (fst (main w)) -> removes a = None /\ populates a = false).
Proof.
  intros Hnamed Hname Hnew Hprep Hcrash.
  destruct (main_named w rawName Hnamed Hname Hnew)
    as (before & Hbefore & -> & ->).
  rewrite (scaffold_prepared w rawName _ tag url tmpDir Hprep).
  pose proof (try_block_uncaught w _ _ _ _ (path_resolve_cwd w rawName) e
                                 Hcrash) as Hblock.
  unfold bind, try_finally. rewrite Hblock. cbn [fst snd].
  split; [reflexivity|]. split.
  - apply in_or_app. right. apply in_or_app. left.
    unfold preamble. rewrite !in_app_iff. simpl. tauto.
  - intros a Ha. apply in_app_or in Ha. destruct Ha as [Ha|Ha].
    { apply Hbefore in Ha. destruct a; try discriminate Ha; now split. }
    apply in_app_or in Ha. destruct Ha as [Ha|Ha].
    + apply preamble_actions in Ha.
      destruct Ha as [Ha|[[u ->]| ->]]; [|now split|now split].
      destruct a; try discriminate Ha; now split.
    + destruct (populates a) eqn:Hp.
      * destruct (try_block_populates w _ _ _ _ _ a Ha Hp) as [H1 H2].
        destruct Hcrash as [H|[_ H]]; congruence.
      * split; [|reflexivity].
        apply try_block_actions in Ha.
        destruct Ha as [[u ->]|[->|[->|Ha]]]; try reflexivity. congruence.
Qed.

Lemma unresolvable_redirect_skips_cleanup_witness :
  snd (main SampleMore.prompted_crashing_world)
  = Uncaught (MkError "Invalid URL") /\
  In (Mkdtemp (temp_prefix SampleMore.prompted_crashing_world))
     (fst (main SampleMore.prompted_crashing_world)) /\
  (forall a, In a (fst (main SampleMore.prompted_crashing_world)) ->
             removes a = None /\ populates a = false).
Proof.
  apply (unresolvable_redirect_skips_cleanup
           SampleMore.prompted_crashing_world
           "my-project" "v1.0.0" "B" "/tmp/frame-script-aB3dEf"
           (MkError "Invalid URL")).
  - right. split; reflexivity.
  - discriminate.
  - reflexivity.
  - repeat split; reflexivity.
  - left. reflexivity.
Defined.

(** X14: [main] resolves only after the whole sequence: both downloads,
    then, in this order, the creation of the target directory, the
    extraction of the template, the creation of [bin], the extraction of
    the binaries, the permissions, the removal of the temporary
    directory, the installer and the final message; nothing before that
    creates or removes anything of the project. *)
Theorem main_resolves_after_full_sequence (w : World) :
  snd (main w) = Resolved tt ->
  exists rawName tag url tmpDir before,
    named w rawName /\ prepared w tag url tmpDir /\
    downloaded w tag url tmpDir /\
    (forall a, In a before -> populates a = false /\ removes a = None) /\
    fst (main w)
    = before
      ++ [Mkdir (path_resolve_cwd w rawName);
          TarExtract (path_join w tmpDir "template.tgz")
                     (path_resolve_cwd w rawName);
          Mkdir (path_join w (path_resolve_cwd w rawName) "bin");
          UnzipExtract (path_join w tmpDir "bin.zip")
                       (path_join w (path_resolve_cwd w rawName) "bin");
          MakeExecutablesUnder
            (path_join w (path_resolve_cwd w rawName) "bin");
          Rm tmpDir;
          Stdout (String.append "Installing dependencies..." LF);
          NpmInstall (path_resolve_cwd w rawName);
          Stdout (String.append "Created "
                    (String.append rawName (String.append "/" LF)))].
Proof.
  intros Hdone.
  destruct (main_cases w)
    as [[_ [[H _]|(e & H & _)]]
       |(rawName & before & Hnamed & _ & _ & Hbefore & Ht & Hs)];
    try congruence.
  rewrite Hs in Hdone.
  assert (Hprep : exists tag url tmpDir, prepared w tag url tmpDir).
  { unfold scaffold in Hdone.
    apply bind_resolved in Hdone. destruct Hdone as (? & _ & H).
    apply bind_resolved in H. destruct H as (tag & Htag & H).
    apply bind_resolved in H. destruct H as (? & _ & H).
    apply bind_resolved in H. destruct H as (url & Hurl & H).
    apply bind_resolved in H. destruct H as (tmpDir & Htmp & _).
    apply make_temp_dir_resolved in Htmp.
    exists tag, url, tmpDir. now repeat split. }
  destruct Hprep as (tag & url & tmpDir & Hprep).
  rewrite (scaffold_prepared w rawName _ tag url tmpDir Hprep) in Hdone, Ht.
  cbn [fst snd] in Hdone, Ht.
  apply bind_resolved in Hdone. destruct Hdone as ([] & Hguard & Hinst).
  pose proof (try_finally_resolved _ _ _ Hguard) as Hblock.
  destruct (try_block_resolved_trace w _ _ _ _ _ _ Hblock)
    as (Hd1 & Hd2 & Htrace).
  rewrite (bind_resolved_eq _ _ tt Hguard) in Ht. cbn [fst] in Ht.
  assert (Hgt : fst (try_finally
                       (acquire_and_extract
                          w (tarball_url tag) url
                          (path_join w tmpDir "template.tgz")
                          (path_join w tmpDir "bin.zip")
                          (path_resolve_cwd w rawName))
                       (step (Rm tmpDir) (rm w tmpDir)))
                = fst (acquire_and_extract
                         w (tarball_url tag) url
                         (path_join w tmpDir "template.tgz")
                         (path_join w tmpDir "bin.zip")
                         (path_resolve_cwd w rawName))
                  ++ [Rm tmpDir]).
  { unfold try_finally. now rewrite Hblock. }
  rewrite Hgt, Htrace in Ht.
  assert (Hnpm : runNpmInstall w (path_resolve_cwd w rawName) = None).
  { unfold bind, step, perform in Hinst. cbn [fst snd] in Hinst.
    destruct (runNpmInstall w _); [discriminate|reflexivity]. }
  unfold bind, step, perform in Ht. rewrite Hnpm in Ht. cbn [fst snd] in Ht.
  exists rawName, tag, url, tmpDir.
  exists (before ++ preamble w
          ++ fst (downloadToFile (URL_resolve w) (https_get w 2%nat)
                                 (pipeline_to_file w) (tarball_url tag)
                                 (path_join w tmpDir "template.tgz") 0)
          ++ fst (downloadToFile (URL_resolve w) (https_get w 3%nat)
                                 (pipeline_to_file w) url
                                 (path_join w tmpDir "bin.zip") 0)).
  split; [assumption|]. split; [assumption|].
  split; [now split|]. split.
  - intros a Ha. rewrite !in_app_iff in Ha.
    destruct Ha as [Ha|[Ha|[Ha|Ha]]].
    + apply Hbefore in Ha. destruct a; try discriminate Ha; now split.
    + apply preamble_actions in Ha.
      destruct Ha as [Ha|[[u ->]| ->]]; [|now split|now split].
      destruct a; try discriminate Ha; now split.
    + apply downloadToFile_trace in Ha.
      destruct Ha as [[u ->]| ->]; now split.
    + apply downloadToFile_trace in Ha.
      destruct Ha as [[u ->]| ->]; now split.
  - rewrite Ht. repeat rewrite <- app_assoc. reflexivity.
Qed.

Lemma main_resolves_after_full_sequence_witness :
  exists rawName tag url tmpDir before,
    named SampleNet.good_world rawName /\
    prepared SampleNet.good_world tag url tmpDir /\
    downloaded SampleNet.good_world tag url tmpDir /\
    (forall a, In a before -> populates a = false /\ removes a = None) /\
    fst (main SampleNet.good_world)
    = before
      ++ [Mkdir (path_resolve_cwd SampleNet.good_world rawName);
          TarExtract (path_join SampleNet.good_world tmpDir "template.tgz")
                     (path_resolve_cwd SampleNet.good_world rawName);
          Mkdir (path_join SampleNet.good_world
                           (path_resolve_cwd SampleNet.good_world rawName)
                           "bin");
          UnzipExtract (path_join SampleNet.good_world tmpDir "bin.zip")
                       (path_join SampleNet.good_world
                          (path_resolve_cwd SampleNet.good_world rawName)
                          "bin");
          MakeExecutablesUnder
            (path_join SampleNet.good_world
                       (path_resolve_cwd SampleNet.good_world rawName) "bin");
          Rm tmpDir;
          Stdout (String.append "Installing dependencies..." LF);
          NpmInstall (path_resolve_cwd SampleNet.good_world rawName);
          Stdout (String.append "Created "
                    (String.append rawName (String.append "/" LF)))].
Proof.
  apply (main_resolves_after_full_sequence SampleNet.good_world).
  reflexivity.
Defined.

Section Order.

Lemma adjacent_app (a b : action) (before trace after_ : list action) :
  adjacent a b trace -> adjacent a b (before ++ trace ++ after_).
Proof.
  intros (p & q & ->). exists (before ++ p), (q ++ after_).
  repeat rewrite <- app_assoc. reflexivity.
Qed.

Lemma ordered_free (trace : list action) :
  (forall b, In b trace -> requires b = None) -> ordered trace.
Proof. intros H a b Hreq Hin. rewrite (H b Hin) in Hreq. discriminate. Qed.

Lemma ordered_app (l1 l2 : list action) :
  ordered l1 -> ordered l2 -> ordered (l1 ++ l2).
Proof.
  intros H1 H2 a b Hreq Hin. apply in_app_or in Hin. destruct Hin as [Hin|Hin].
  - pose proof (adjacent_app a b [] l1 l2 (H1 a b Hreq Hin)) as H. exact H.
  - pose proof (adjacent_app a b l1 l2 [] (H2 a b Hreq Hin)) as H.
    now rewrite app_nil_r in H.
Qed.

Lemma ordered_bind {A B : Type} (m : Eff A) (k : A -> Eff B) :
  ordered (fst m) -> (forall x, ordered (fst (k x))) ->
  ordered (fst (bind m k)).
Proof.
  intros Hm Hk. unfold bind. destruct (snd m) as [x|e|e|c]; cbn [fst];
    try assumption.
  now apply ordered_app.
Qed.

Lemma ordered_try_finally {A : Type} (body : Eff A) (cleanup : Eff unit) :
  ordered (fst body) -> ordered (fst cleanup) ->
  ordered (fst (try_finally body cleanup)).
Proof.
  intros Hb Hc. unfold try_finally.
  destruct (snd body) as [x|e|e|c]; cbn [fst]; try assumption.
  all: now apply ordered_app.
Qed.

Lemma ordered_messages (trace : list action) :
  (forall a, In a trace -> is_message a = true) -> ordered trace.
Proof.
  intros H. apply ordered_free. intros b Hb. apply H in Hb.
  destruct b; first [reflexivity | discriminate].
Qed.

Lemma ordered_single (a : action) :
  requires a = None -> ordered [a].
Proof. intros H. apply ordered_free. intros b [<-|[]]. exact H. Qed.

Variable w : World.

Lemma ordered_requests (trace : list action) :
  (forall a, In a trace -> exists u, a = HttpGet u) -> ordered trace.
Proof.
  intros H. apply ordered_free. intros b Hb. apply H in Hb.
  destruct Hb as [u ->]. reflexivity.
Qed.

Lemma ordered_download (url filePath : string) (operation : nat) :
  ordered (fst (downloadToFile (URL_resolve w) (https_get w operation)
                               (pipeline_to_file w) url filePath 0)).
Proof.
  apply ordered_free. intros b Hb. apply downloadToFile_trace in Hb.
  destruct Hb as [[u ->]| ->]; reflexivity.
Qed.

Lemma ordered_extract (tarPath zipPath targetDir : string) :
  ordered (fst (extract_archives w tarPath zipPath targetDir)).
Proof.
  unfold extract_archives, bind, step. cbn [fst snd].
  intros a b Hreq Hin.
  destruct (mkdir w targetDir); cbn [fst snd] in Hin;
    [|destruct (tar_x w tarPath targetDir); cbn [fst snd] in Hin;
      [|destruct (mkdir w (path_join w targetDir "bin"));
        cbn [fst snd] in Hin;
        [|destruct (unzip_to w zipPath (path_join w targetDir "bin"));
          cbn [fst snd] in Hin;
          [|destruct (makeExecutablesUnder w (path_join w targetDir "bin"));
            cbn [fst snd] in Hin]]]].
  all: cbn [fst snd app] in Hin |- *; simpl in Hin;
    repeat (destruct Hin as [<-|Hin];
            [simpl in Hreq; first [discriminate Hreq | injection Hreq as <-]|]);
    try (now destruct Hin).
  all: first [ exists []; eexists; reflexivity
             | exists [Mkdir targetDir; TarExtract tarPath targetDir];
               eexists; reflexivity ].
Qed.

Lemma ordered_scaffold (rawName targetDir : string) :
  ordered (fst (scaffold w rawName targetDir)).
Proof.
  unfold scaffold.
  apply ordered_bind; [now apply ordered_single|intros _].
  apply ordered_bind;
    [apply ordered_requests; apply fetchLatestTag_trace|intros tag].
  apply ordered_bind; [now apply ordered_single|intros _].
  apply ordered_bind;
    [apply ordered_requests; apply fetchLatestBinaryZipUrl_trace|intros url].
  apply ordered_bind; [now apply ordered_single|intros tmpDir].
  apply ordered_bind.
  - apply ordered_try_finally; [|now apply ordered_single].
    rewrite try_block_eq.
    apply ordered_bind; [apply ordered_download|intros _].
    apply ordered_bind; [apply ordered_download|intros _].
    apply ordered_extract.
  - intros _.
    apply ordered_bind; [now apply ordered_single|intros _].
    apply ordered_bind;
      [now apply ordered_single | intros _; now apply ordered_single].
Qed.

Lemma ordered_main : ordered (fst (main w)).
Proof.
  destruct (main_cases w)
    as [[Hmsg _]|(rawName & before & _ & _ & _ & Hbefore & Ht & _)].
  - now apply ordered_messages.
  - rewrite Ht. apply ordered_app;
      [now apply ordered_messages|apply ordered_scaffold].
Qed.

End Order.

(** X15: in every run of [main], an archive is extracted only right
    after the directory it is extracted into has been created: the
    template right after the target directory, the binaries right after
    its [bin] directory. *)
Theorem extraction_follows_directory_creation
        (w : World) (a b : action) :
  In b (fst (main w)) ->
  requires b = Some a ->
  adjacent a b (fst (main w)).
Proof. intros Hin Hreq. now apply ordered_main. Qed.

Lemma extraction_follows_directory_creation_witness :
  adjacent (Mkdir "/home/user/my-project/bin")
           (UnzipExtract "/tmp/frame-script-aB3dEf/bin.zip"
                         "/home/user/my-project/bin")
           (fst (main SampleNet.good_world)).
Proof.
  apply (extraction_follows_directory_creation SampleNet.good_world).
  - vm_compute. do 12 right. left. reflexivity.
  - reflexivity.
Defined.

Section ProgramMore.

Variable w : World.

Lemma hasHelp_iff (arguments : list string) :
  hasHelp arguments = true <-> In "-h" arguments \/ In "--help" arguments.
Proof.
  unfold hasHelp. rewrite orb_true_iff, !existsb_exists. split.
  - intros [(x & Hin & Hx)|(x & Hin & Hx)]; apply String.eqb_eq in Hx;
      subst x; tauto.
  - intros [H|H]; [left|right]; eexists; (split; [exact H|]);
      apply String.eqb_refl.
Qed.

(** [main] itself never exits with a status other than 1. *)
Lemma main_exit_status (c : Z) : snd (main w) = Exited c -> c = 1.
Proof.
  intros Hexit.
  destruct (main_cases w)
    as [[_ [[H1 _]|(e & He & _)]]|(rawName & before & _ & _ & _ & _ & _ & Hs)].
  - congruence.
  - congruence.
  - rewrite Hs in Hexit. now apply scaffold_never_exits in Hexit.
Qed.

Lemma program_without_help :
  hasHelp (args w) = false ->
  program w
  = match snd (main w) with
    | Rejected err =>
        (fst (main w)
         ++ [Stderr (String.append "Failed to initialize project: "
                                   (String.append (message err) LF))],
         Exited 1)
    | _ => main w
    end.
Proof. intros H. unfold program. now rewrite H. Qed.

(** When [main] exits, the last thing it did was to write the reason
    to the error stream; before that it has at most asked for the
    name. *)
Lemma main_exit_trace :
  snd (main w) = Exited 1 ->
  exists rawName text,
    named w rawName /\
    fst (main w)
    = match nth_error (args w) 0 with
      | Some _ => []
      | None => [Stdout "Project name: "]
      end ++ [Stderr text] /\
    ((rawName = EmptyString /\
      text = String.append "Project name is required." LF)
     \/ (rawName <> EmptyString /\
         existsSync w (path_resolve_cwd w rawName) = true /\
         text = String.append "Directory already exists: "
                              (String.append rawName LF))).
Proof.
  unfold main, named, bind, promptProjectName.
  destruct (nth_error (args w) 0) as [a|] eqn:Hargs.
  - simpl. destruct a as [|ch rest].
    + intros _. exists EmptyString. eexists.
      split; [now left|]. split; [reflexivity|]. left. now split.
    + destruct (existsSync w _) eqn:Hex.
      * intros _. exists (String ch rest). eexists.
        split; [now left|]. split; [reflexivity|]. right.
        split; [discriminate|]. now split.
      * intros H. now apply scaffold_never_exits in H.
  - simpl. destruct (prompt_answer w) as [answer|e] eqn:Hans;
      [|discriminate].
    destruct answer as [|ch rest].
    + intros _. exists EmptyString. eexists.
      split; [now right|]. split; [reflexivity|]. left. now split.
    + simpl. destruct (existsSync w _) eqn:Hex.
      * intros _. exists (String ch rest). eexists.
        split; [now right|]. split; [reflexivity|]. right.
        split; [discriminate|]. now split.
      * intros H. now apply scaffold_never_exits in H.
Qed.

End ProgramMore.

(** X16: the program calls [process.exit(0)] exactly when a help flag
    is among its arguments, wherever it stands; it has then printed the
    usage text and done nothing else. *)
Theorem help_is_the_only_exit_with_status_zero (w : World) :
  (snd (program w) = Exited 0 <-> In "-h" (args w) \/ In "--help" (args w)) /\
  (In "-h" (args w) \/ In "--help" (args w) ->
   program w = ([Stdout usage], Exited 0)).
Proof.
  assert (Hhelp : In "-h" (args w) \/ In "--help" (args w) ->
                  program w = ([Stdout usage], Exited 0)).
  { intros H. apply hasHelp_iff in H. unfold program. now rewrite H. }
  split; [split|exact Hhelp].
  - intros Hexit. apply hasHelp_iff.
    destruct (hasHelp (args w)) eqn:Hh; [reflexivity|exfalso].
    rewrite (program_without_help w Hh) in Hexit.
    destruct (snd (main w)) as [x|e|e|c] eqn:Hm; simpl in Hexit;
      try congruence.
    rewrite Hm in Hexit. injection Hexit as ->.
    now apply main_exit_status in Hm.
  - intros H. now rewrite (Hhelp H).
Qed.

(** X17: a rejection of [main] never stays unhandled; the program calls
    [process.exit(1)] exactly when no help flag is given and [main] is
    rejected or has itself exited; and whenever it calls
    [process.exit(1)], the action just before is a message on the error
    stream that names the cause: after everything [main] did,
    [Failed to initialize project:] with the message of the rejection;
    or, nothing having been done but to ask for a name that was not
    given as an argument, [Project name is required.] for an empty name
    or [Directory already exists:] with the name whose directory
    exists. *)
Theorem exit_with_status_one_follows_a_message (w : World) :
  (forall e, snd (program w) <> Rejected e) /\
  (snd (program w) = Exited 1 <->
   hasHelp (args w) = false /\
   ((exists e, snd (main w) = Rejected e) \/ snd (main w) = Exited 1)) /\
  (snd (program w) = Exited 1 ->
   exists before text,
     fst (program w) = before ++ [Stderr text] /\
     ((exists e,
          snd (main w) = Rejected e /\
          before = fst (main w) /\
          text = String.append "Failed to initialize project: "
                               (String.append (message e) LF))
      \/ (exists rawName,
             snd (main w) = Exited 1 /\
             named w rawName /\
             before = match nth_error (args w) 0 with
                      | Some _ => []
                      | None => [Stdout "Project name: "]
                      end /\
             ((rawName = EmptyString /\
               text = String.append "Project name is required." LF)
              \/ (rawName <> EmptyString /\
                  existsSync w (path_resolve_cwd w rawName) = true /\
                  text = String.append "Directory already exists: "
                                       (String.append rawName LF)))))).
Proof.
  split; [|split].
  - intros e. unfold program. destruct (hasHelp (args w)); [discriminate|].
    destruct (snd (main w)) as [x|e'|e'|c] eqn:Hm; simpl; congruence.
  - unfold program. destruct (hasHelp (args w)).
    + split; [discriminate|]. intros [H _]. discriminate H.
    + destruct (snd (main w)) as [x|e'|e'|c] eqn:Hm; simpl.
      * rewrite Hm. split; [discriminate|].
        intros [_ [[e H]|H]]; discriminate H.
      * split; [|reflexivity]. intros _. split; [reflexivity|].
        left. now exists e'.
      * rewrite Hm. split; [discriminate|].
        intros [_ [[e H]|H]]; discriminate H.
      * rewrite Hm. split.
        -- intros H. split; [reflexivity|]. now right.
        -- intros [_ [[e H]|H]]; [discriminate H|exact H].
  - unfold program. destruct (hasHelp (args w)); [discriminate|].
    destruct (snd (main w)) as [x|e'|e'|c] eqn:Hm; simpl.
    + rewrite Hm. discriminate.
    + intros _. exists (fst (main w)). eexists. split; [reflexivity|].
      left. exists e'. repeat split.
    + rewrite Hm. discriminate.
    + rewrite Hm. intros Hexit.
      assert (Hmain : snd (main w) = Exited 1) by congruence.
      destruct (main_exit_trace w Hmain)
        as (rawName & text & Hnamed & Htrace & Hcause).
      eexists. exists text. split; [exact Htrace|].
      right. exists rawName. repeat split; assumption.
Qed.

Lemma exit_with_status_one_follows_a_message_witness :
  exists before text,
    fst (program SampleNet.failing_world) = before ++ [Stderr text] /\
    ((exists e,
         snd (main SampleNet.failing_world) = Rejected e /\
         before = fst (main SampleNet.failing_world) /\
         text = String.append "Failed to initialize project: "
                              (String.append (message e) LF))
     \/ (exists rawName,
            snd (main SampleNet.failing_world) = Exited 1 /\
            named SampleNet.failing_world rawName /\
            before = match nth_error (args SampleNet.failing_world) 0 with
                     | Some _ => []
                     | None => [Stdout "Project name: "]
                     end /\
            ((rawName = EmptyString /\
              text = String.append "Project name is required." LF)
             \/ (rawName <> EmptyString /\
                 existsSync SampleNet.failing_world
                            (path_resolve_cwd SampleNet.failing_world rawName)
                 = true /\
                 text = String.append "Directory already exists: "
                                      (String.append rawName LF))))).
Proof.
  apply (proj2 (proj2 (exit_with_status_one_follows_a_message
                         SampleNet.failing_world))).
  reflexivity.
Defined.

(** The failed download of the sample is reported with its status. *)
Example program_reports_failed_download :
  snd (program SampleNet.failing_world) = Exited 1 /\
  last (fst (program SampleNet.failing_world)) (Stdout EmptyString)
  = Stderr (String.append
              "Failed to initialize project: Download failed with status 503"
              LF).
Proof. split; reflexivity. Qed.

(** * Properties of [runNpmInstall] and [makeExecutablesUnder] *)

Lemma append_injective (p a b : string) :
  String.append p a = String.append p b -> a = b.
Proof.
  induction p as [|c p IH]; simpl; [tauto|].
  intros [= H]. now apply IH.
Qed.

Lemma toString_is_not_a_question_mark (z : Z) : JS.toString z <> "?".
Proof.
  unfold JS.toString. intros H.
  assert (Hparse : NilZero.int_of_string
                     (NilZero.string_of_int (Z.to_int z))
                   = Some (Z.to_int z)).
  { apply NilZero.isi; destruct z as [|p|p]; simpl; try discriminate;
      intros [= Hp]; now apply (Unsigned.to_uint_nonnil p). }
  rewrite H in Hparse. discriminate.
Qed.

Lemma option_Z_eq_dec (a b : option Z) : {a = b} + {a <> b}.
Proof. decide equality. apply Z.eq_dec. Qed.

Lemma code_text_injective (code code' : option Z) :
  Child.code_text code = Child.code_text code' -> code = code'.
Proof.
  destruct code as [c|], code' as [c'|]; simpl; intros H.
  - f_equal. now apply toString_injective.
  - now apply toString_is_not_a_question_mark in H.
  - symmetry in H. now apply toString_is_not_a_question_mark in H.
  - reflexivity.
Qed.

(** X18: [runNpmInstall] is rejected with the error of the child when
    the child cannot be run; it resolves exactly when the child exits
    with code 0; on any other exit, also one caused by a signal, it is
    rejected with the message [npm install failed with exit code]
    followed by the code, or by a question mark when there is none; and
    two runs that settle alike have exited with the same code. *)
Theorem runNpmInstall_settles_by_exit_code
        (platform : string)
        (spawn : string -> list string -> string -> Child.ChildEvent)
        (cwd : string) :
  (forall err,
      spawn (Child.npmCmd platform) ["install"] cwd = Child.ChildError err ->
      Child.runNpmInstall platform spawn cwd = Rejected err) /\
  (Child.runNpmInstall platform spawn cwd = Resolved tt <->
   spawn (Child.npmCmd platform) ["install"] cwd
   = Child.ChildExit (Some 0)) /\
  (forall code,
      spawn (Child.npmCmd platform) ["install"] cwd = Child.ChildExit code ->
      code <> Some 0 ->
      Child.runNpmInstall platform spawn cwd
      = Rejected (MkError (String.append "npm install failed with exit code "
                                         (Child.code_text code)))) /\
  (forall platform' spawn' cwd' code code',
      spawn (Child.npmCmd platform) ["install"] cwd = Child.ChildExit code ->
      spawn' (Child.npmCmd platform') ["install"] cwd'
      = Child.ChildExit code' ->
      Child.runNpmInstall platform spawn cwd
      = Child.runNpmInstall platform' spawn' cwd' ->
      code = code').
Proof.
  assert (Hexit : forall p (sp : string -> list string -> string
                                 -> Child.ChildEvent) d code,
             sp (Child.npmCmd p) ["install"] d = Child.ChildExit code ->
             code <> Some 0 ->
             Child.runNpmInstall p sp d
             = Rejected
                 (MkError (String.append "npm install failed with exit code "
                                         (Child.code_text code)))).
  { intros p sp d code H Hne. unfold Child.runNpmInstall. rewrite H.
    destruct code as [[|q|q]|]; [now elim Hne| | |]; reflexivity. }
  assert (Hzero : forall p (sp : string -> list string -> string
                                 -> Child.ChildEvent) d,
             sp (Child.npmCmd p) ["install"] d = Child.ChildExit (Some 0) ->
             Child.runNpmInstall p sp d = Resolved tt).
  { intros p sp d H. unfold Child.runNpmInstall. now rewrite H. }
  split; [|split; [|split]].
  - intros err H. unfold Child.runNpmInstall. now rewrite H.
  - split; [|apply Hzero].
    unfold Child.runNpmInstall.
    destruct (spawn _ _ cwd) as [err|[[|p|p]|]];
      first [discriminate | reflexivity].
  - intros code. apply Hexit.
  - intros platform' spawn' cwd' code code' H H' Heq.
    destruct (option_Z_eq_dec code (Some 0)) as [->|Hne];
      destruct (option_Z_eq_dec code' (Some 0)) as [->|Hne'].
    + reflexivity.
    + rewrite (Hzero _ _ _ H), (Hexit _ _ _ _ H' Hne') in Heq.
      discriminate Heq.
    + rewrite (Hexit _ _ _ _ H Hne), (Hzero _ _ _ H') in Heq.
      discriminate Heq.
    + rewrite (Hexit _ _ _ _ H Hne), (Hexit _ _ _ _ H' Hne') in Heq.
      assert (Hm : String.append "npm install failed with exit code "
                                 (Child.code_text code)
                   = String.append "npm install failed with exit code "
                                   (Child.code_text code'))
        by congruence.
      now apply append_injective, code_text_injective in Hm.
Qed.

Lemma runNpmInstall_settles_by_exit_code_witness :
  Child.runNpmInstall "linux" (SampleMore.exits_with (Some 2)) "/home/user/p"
  = Rejected (MkError "npm install failed with exit code 2").
Proof.
  apply (proj1 (proj2 (proj2 (runNpmInstall_settles_by_exit_code
                                "linux" (SampleMore.exits_with (Some 2))
                                "/home/user/p")))
           (Some 2)); [reflexivity | discriminate].
Defined.

(** A child ended by a signal has no exit code. *)
Example runNpmInstall_signal :
  Child.runNpmInstall "win32" (SampleMore.exits_with None) "/home/user/p"
  = Rejected (MkError "npm install failed with exit code ?").
Proof. reflexivity. Qed.

Section WalkFacts.

Variable path_join : string -> string -> string.

(** Induction on a directory tree: a property of a listing follows
    from the same property of the directories among its entries. *)
Lemma Listing_tree_ind (P : Walk.Listing -> Prop) :
  (forall rf entries,
      (forall name content,
          In (Walk.Directory name content) entries -> P content) ->
      P (Walk.mkListing rf entries)) ->
  forall listing, P listing.
Proof.
  intros H. fix IH 1. intros [rf entries]. apply H.
  revert entries. fix IHentries 1. intros [|entry entries] name content Hin.
  - destruct Hin.
  - destruct Hin as [Heq|Hin].
    + destruct entry as [n f|n c|n]; try discriminate Heq.
      injection Heq as _ <-. apply IH.
    + exact (IHentries entries name content Hin).
Qed.

(** Off Windows, the walk of a readable directory is the [chmod] of its
    files and the walks of its sub-directories. *)
Lemma walk_entries (dir : string) (entries : list Walk.Dirent) :
  Walk.makeExecutablesUnder false path_join dir (Walk.mkListing None entries)
  = Walk.both (Walk.chmod_files path_join dir entries)
              (Walk.walks_below false path_join dir entries).
Proof.
  simpl. f_equal.
  induction entries as [|entry entries IH]; [reflexivity|].
  destruct entry as [n f|n c|n]; simpl; now rewrite IH.
Qed.

Lemma regular_files_entries (dir : string) (rf : option Error)
      (entries : list Walk.Dirent) :
  Walk.regular_files path_join dir (Walk.mkListing rf entries)
  = Walk.files_of_entries path_join dir entries.
Proof.
  simpl. induction entries as [|entry entries IH]; [reflexivity|].
  simpl. now rewrite IH.
Qed.

Lemma fulfilled_iff (r : Walk.Report) :
  Walk.fulfilled r = true <-> Walk.failures r = [].
Proof.
  unfold Walk.fulfilled. destruct (Walk.failures r); split;
    first [reflexivity | discriminate].
Qed.

Local Abbreviation marked :=
  (map (fun path : string => (path, 493))).

(** One [chmod] per regular file: the calls of a fulfilled walk are the
    files of the tree, each once, in another order. *)
Lemma walk_entries_marked (dir : string) (entries : list Walk.Dirent) :
  (forall name content,
      In (Walk.Directory name content) entries ->
      forall dir',
        Walk.failures
          (Walk.makeExecutablesUnder false path_join dir' content) = [] ->
        Permutation
          (Walk.chmods (Walk.makeExecutablesUnder false path_join dir' content))
          (marked (Walk.regular_files path_join dir' content))) ->
  Walk.failures (Walk.chmod_files path_join dir entries) = [] ->
  Walk.failures (Walk.walks_below false path_join dir entries) = [] ->
  Permutation
    (Walk.chmods (Walk.chmod_files path_join dir entries)
     ++ Walk.chmods (Walk.walks_below false path_join dir entries))
    (marked (Walk.files_of_entries path_join dir entries)).
Proof.
  induction entries as [|entry entries IH]; intros Hsub Hf Hb.
  - apply perm_nil.
  - assert (Hsub' : forall name content,
               In (Walk.Directory name content) entries ->
               forall dir',
                 Walk.failures
                   (Walk.makeExecutablesUnder false path_join dir' content)
                 = [] ->
                 Permutation
                   (Walk.chmods
                      (Walk.makeExecutablesUnder false path_join dir' content))
                   (marked (Walk.regular_files path_join dir' content))).
    { intros name content Hin. apply (Hsub name content). now right. }
    destruct entry as [n f|n c|n].
    + cbn [Walk.chmod_files Walk.walks_below Walk.files_of_entries
           Walk.both Walk.chmods Walk.failures] in Hf, Hb |- *.
      apply app_eq_nil in Hf. destruct Hf as [_ Hf].
      simpl. apply perm_skip. now apply IH.
    + cbn [Walk.chmod_files Walk.walks_below Walk.files_of_entries
           Walk.both Walk.chmods Walk.failures] in Hf, Hb |- *.
      apply app_eq_nil in Hb. destruct Hb as [Hc Hb].
      rewrite map_app.
      eapply Permutation_trans; [apply Permutation_app_swap_app|].
      apply Permutation_app.
      * apply (Hsub n c (or_introl eq_refl)). exact Hc.
      * now apply IH.
    + cbn [Walk.chmod_files Walk.walks_below Walk.files_of_entries
           Walk.both Walk.chmods Walk.failures] in Hf, Hb |- *.
      simpl. now apply IH.
Qed.

Lemma walk_marked (dir : string) (listing : Walk.Listing) :
  Walk.failures (Walk.makeExecutablesUnder false path_join dir listing) = [] ->
  Permutation
    (Walk.chmods (Walk.makeExecutablesUnder false path_join dir listing))
    (marked (Walk.regular_files path_join dir listing)).
Proof.
  revert dir. induction listing as [rf entries IH] using Listing_tree_ind.
  intros dir Hok. destruct rf as [err|]; [discriminate Hok|].
  rewrite walk_entries in Hok |- *. rewrite regular_files_entries.
  cbn [Walk.both Walk.chmods Walk.failures] in Hok |- *.
  apply app_eq_nil in Hok. destruct Hok as [Hf Hb].
  apply walk_entries_marked; assumption.
Qed.

Lemma files_of_entries_In (dir path : string) (entries : list Walk.Dirent) :
  In path (Walk.files_of_entries path_join dir entries) <->
  (exists name failure,
      In (Walk.RegularFile name failure) entries /\
      path = path_join dir name)
  \/ (exists name content,
         In (Walk.Directory name content) entries /\
         In path (Walk.regular_files path_join (path_join dir name) content)).
Proof.
  induction entries as [|entry entries IH].
  - simpl. split; [tauto|].
    intros [(n & f & [] & _)|(n & c & [] & _)].
  - cbn [Walk.files_of_entries]. rewrite in_app_iff, IH. split.
    + intros [H|[(n & f & Hin & Hp)|(n & c & Hin & Hp)]].
      * destruct entry as [n f|n c|n]; simpl in H.
        -- destruct H as [<-|[]]. left. exists n, f. split; [now left|reflexivity].
        -- right. exists n, c. split; [now left|assumption].
        -- destruct H.
      * left. exists n, f. split; [now right|assumption].
      * right. exists n, c. split; [now right|assumption].
    + intros [(n & f & [->|Hin] & Hp)|(n & c & [->|Hin] & Hp)].
      * left. simpl. now left.
      * right. left. now exists n, f.
      * left. exact Hp.
      * right. right. now exists n, c.
Qed.

Lemma regular_files_In (dir path : string) (listing : Walk.Listing) :
  In path (Walk.regular_files path_join dir listing) <->
  Walk.file_in path_join dir listing path.
Proof.
  revert dir path.
  induction listing as [rf entries IH] using Listing_tree_ind.
  intros dir path. rewrite regular_files_entries, files_of_entries_In. split.
  - intros [(n & f & Hin & ->)|(n & c & Hin & Hp)].
    + now apply (Walk.file_here path_join dir n f rf entries).
    + apply (Walk.file_below path_join dir n path c); [assumption|].
      now apply (IH n c Hin).
  - intros Hfile.
    inversion Hfile as [d n f r es Hin|d n p c r es Hin Hsub]; subst.
    + left. now exists n, f.
    + right. exists n, c. split; [assumption|]. now apply (IH n c Hin).
Qed.

End WalkFacts.

(** X19: when [makeExecutablesUnder] is fulfilled, the [chmod] calls it
    has made are, off Windows, one for each regular file of the tree
    under the directory, at any depth, no more and no fewer, each with
    mode 755 (octal); directories and entries that are neither files nor
    directories get none; on Windows there is no call at all. *)
Theorem makeExecutablesUnder_marks_regular_files
        (win32 : bool) (path_join : string -> string -> string)
        (dir : string) (listing : Walk.Listing) :
  Walk.fulfilled (Walk.makeExecutablesUnder win32 path_join dir listing)
  = true ->
  (win32 = true ->
   Walk.chmods (Walk.makeExecutablesUnder win32 path_join dir listing) = []) /\
  (win32 = false ->
   Permutation
     (Walk.chmods (Walk.makeExecutablesUnder win32 path_join dir listing))
     (map (fun path : string => (path, 493))
          (Walk.regular_files path_join dir listing))) /\
  (forall path,
      In path (Walk.regular_files path_join dir listing) <->
      Walk.file_in path_join dir listing path).
Proof.
  intros Hok. split; [|split].
  - intros ->. destruct listing; reflexivity.
  - intros ->. apply walk_marked. now apply fulfilled_iff.
  - intros path. apply regular_files_In.
Qed.

Lemma makeExecutablesUnder_marks_regular_files_witness :
  Permutation
    (Walk.chmods (Walk.makeExecutablesUnder
                    false SampleMore.slash "/p/bin" SampleMore.bin_tree))
    (map (fun path : string => (path, 493))
         (Walk.regular_files SampleMore.slash "/p/bin" SampleMore.bin_tree)).
Proof.
  apply (proj1 (proj2 (makeExecutablesUnder_marks_regular_files
                         false SampleMore.slash "/p/bin" SampleMore.bin_tree
                         eq_refl))).
  reflexivity.
Defined.

(** The program of the directory is marked first, then the one of its
    sub-directory; the symbolic link is not marked. *)
Example makeExecutablesUnder_sample :
  Walk.makeExecutablesUnder false SampleMore.slash "/p/bin"
                            SampleMore.bin_tree
  = {| Walk.chmods := [("/p/bin/frame", 493); ("/p/bin/lib/codec", 493)];
       Walk.failures := [] |}.
Proof. reflexivity. Qed.
